(** * kantab: the GraphQL type generator and the drag-and-drop ordering

    A shallow embedding of

    - [generateType] of [backend/libs/graphql-generator.js], which renders
      the [settings.fields] map of a service schema as a GraphQL type, and
    - the actions [changeListPosition] and [changeCardPosition] of the
      frontend store, which compute the new [position] of a list or a card
      after a drag and drop,

    followed by the properties of both that the specification states.

    JavaScript values are modelled by [Js.jsval]; a thrown [TypeError] is the
    constructor [Js.TypeError] of the error monad [Js.result].  Positions are
    JavaScript numbers.  The module [Store] has them as exact rationals
    ([Q], compared with [==]), the "real number" of the specification's data
    model, for the properties that do not depend on the arithmetic: which
    rows a move stores, where it throws, what the mutations do with its
    result.  The module [Doubles] has them as IEEE-754 binary64 numbers,
    with sums, differences and quotients rounded as the machine rounds
    them, for the properties of the computed position itself. *)

From Stdlib Require Import List ZArith QArith Qround String Ascii Bool Lia Lqa.
From Stdlib Require Import DecimalString Permutation.
From Stdlib Require Import SpecFloat PrimFloat FloatOps.
Import ListNotations.

Set Warnings "-register-all".
Local Open Scope string_scope.

(** ** JavaScript values and exceptions *)

Module Js.

(** A computation that either completes with a value or throws a
    [TypeError] (the only exception the embedded code can raise). *)
Inductive result (A : Type) : Type :=
| Ok (a : A)
| TypeError.
Arguments Ok {A} a.
Arguments TypeError {A}.

Definition bind {A B : Type} (m : result A) (k : A -> result B) : result B :=
  match m with
  | Ok a => k a
  | TypeError => TypeError
  end.

Definition throws {A : Type} (m : result A) : bool :=
  match m with
  | Ok _ => false
  | TypeError => true
  end.

(** The values a field map can hold: [undefined], [null], booleans,
    integers (those JavaScript prints in decimal digits), strings and plain
    objects (own properties in insertion order). *)
Inductive jsval : Type :=
| JUndefined
| JNull
| JBool (b : bool)
| JNum (n : Z)
| JStr (s : string)
| JObj (props : list (string * jsval)).

(** ToBoolean. *)
Definition truthy (v : jsval) : bool :=
  match v with
  | JUndefined | JNull => false
  | JBool b => b
  | JNum n => negb (n =? 0)%Z
  | JStr s => negb (s =? "")
  | JObj _ => true
  end.

(** ToString, as applied by a template literal and by [+=] with a string. *)
Definition toString (v : jsval) : string :=
  match v with
  | JUndefined => "undefined"
  | JNull => "null"
  | JBool true => "true"
  | JBool false => "false"
  | JNum n => NilZero.string_of_int (Z.to_int n)
  | JStr s => s
  | JObj _ => "[object Object]"
  end.

Fixpoint assoc (k : string) (props : list (string * jsval)) : jsval :=
  match props with
  | [] => JUndefined
  | (k', v) :: rest => if k' =? k then v else assoc k rest
  end.

(** [v.k] for the property names the generator reads ([graphqlType],
    [type], [properties], [items], [required]): reading a property of
    [undefined] or [null] throws; a primitive has none of these properties;
    an object yields its own property or [undefined]. *)
Definition getProp (v : jsval) (k : string) : result jsval :=
  match v with
  | JUndefined | JNull => TypeError
  | JObj props => Ok (assoc k props)
  | JBool _ | JNum _ | JStr _ => Ok JUndefined
  end.

(** [v == lit] for a string literal [lit] that is not numeric (the
    generator compares with ["number"], ["object"] and ["array"]): a string
    is compared as such, an object through its string conversion, and a
    number or a boolean against [NaN]. *)
Definition looseEqStr (v : jsval) (lit : string) : bool :=
  match v with
  | JStr s => s =? lit
  | JObj _ => toString v =? lit
  | JUndefined | JNull | JBool _ | JNum _ => false
  end.

(** [lits.includes(v)] for an array of string literals (SameValueZero). *)
Definition includes (lits : list string) (v : jsval) : bool :=
  match v with
  | JStr s => existsb (String.eqb s) lits
  | _ => false
  end.

Definition toUpperCase1 (c : ascii) : ascii :=
  let n := nat_of_ascii c in
  if (97 <=? n)%nat && (n <=? 122)%nat then ascii_of_nat (n - 32) else c.

(** [s.slice(0, 1).toUpperCase() + s.slice(1)] on an ASCII string. *)
Definition capitalize (s : string) : string :=
  match s with
  | EmptyString => EmptyString
  | String c rest => String (toUpperCase1 c) rest
  end.

(** [xs.forEach((x, idx) => ...)] where the callback updates a state
    and may throw. *)
Fixpoint forEach {A St : Type} (f : St -> A -> nat -> result St)
         (xs : list A) (idx : nat) (s : St) : result St :=
  match xs with
  | [] => Ok s
  | x :: rest => bind (f s x idx) (forEach f rest (S idx))
  end.

Definition newline : string := String "010" EmptyString.

(** [lines.join("\n")]. *)
Definition join (lines : list string) : string := String.concat newline lines.

End Js.

Import Js.

Notation "x <- m ;; k" := (bind m (fun x => k))
  (at level 61, m at next level, right associativity).

(** ** backend/libs/graphql-generator.js *)

Module GraphqlGenerator.

(** Line 10: [field.graphqlType || field.type || "string"]. *)
Definition declaredType (field : jsval) : result jsval :=
  g <- getProp field "graphqlType" ;;
  if truthy g then Ok g
  else
    t <- getProp field "type" ;;
    if truthy t then Ok t else Ok (JStr "string").

(** Lines 12-15: the scalar names. *)
Definition scalarName (type : jsval) : jsval :=
  let type :=
    if includes ["string"; "boolean"] type
    then JStr (capitalize (toString type))
    else type in
  if looseEqStr type "number" then JStr "Int" else type.

(** Lines 18-19: the fields that are "not-well defined". *)
Definition skipped (field type : jsval) : result bool :=
  skipObject <-
    (if looseEqStr type "object"
     then p <- getProp field "properties" ;; Ok (negb (truthy p))
     else Ok false) ;;
  if (skipObject : bool) then Ok true
  else if looseEqStr type "array"
       then i <- getProp field "items" ;; Ok (negb (truthy i))
       else Ok false.

(** Lines 21-22: the list brackets and the required mark. *)
Definition decorate (field type : jsval) : result string :=
  t <- getProp field "type" ;;
  let type := if looseEqStr t "array"
              then JStr ("[" ++ toString type ++ "]") else type in
  r <- getProp field "required" ;;
  Ok (if truthy r then toString type ++ "!" else toString type).

(** Lines 10-22: the type text of one field, [None] when the callback
    returns before its [push]. *)
Definition fieldType (field : jsval) : result (option string) :=
  type <- declaredType field ;;
  let type := scalarName type in
  skip <- skipped field type ;;
  if (skip : bool) then Ok None
  else type <- decorate field type ;; Ok (Some type).

(** Line 24: the text pushed for the entry at [idx] of [len] entries. *)
Definition fieldLine (len : nat) (name type : string) (idx : nat) : string :=
  "  " ++ name ++ ": " ++ type
       ++ (if (Z.of_nat idx <? Z.of_nat len - 1)%Z then "," else "").

(** Line 5: the opening line. *)
Definition header (name : string) : string := "type " ++ name ++ " {".

(** Lines 9-25: the callback of [entries.forEach]. *)
Definition callback (len : nat) (res : list string)
           (entry : string * jsval) (idx : nat) : result (list string) :=
  let '(name, field) := entry in
  type <- fieldType field ;;
  match type with
  | None => Ok res
  | Some type => Ok (res ++ [fieldLine len name type idx])%list
  end.

(** The array [res] before the join: the lines of the output.  [fields] is
    [Object.entries(schema.settings.fields)], and [None] stands for a
    [schema.settings.fields] that is absent. *)
Definition generateLines (name : string)
           (fields : option (list (string * jsval))) : result (list string) :=
  let res := [header name] in
  res <-
    match fields with
    | Some entries => forEach (callback (List.length entries)) entries 0 res
    | None => Ok res
    end ;;
  Ok (res ++ ["}"])%list.

Definition generateType (name : string)
           (fields : option (list (string * jsval))) : result string :=
  res <- generateLines name fields ;;
  Ok (join res).

End GraphqlGenerator.

Import GraphqlGenerator.


(** ** The frontend store: [changeListPosition], [changeCardPosition] *)

Module Store.

Local Open Scope Z_scope.

(** A row of [board.lists.rows] or of [list.cards.rows]. *)
Record Entity : Type := mkEntity
  { id : string;
    title : string;
    position : Q }.

(** [entity.position = p]. *)
Definition setPosition (e : Entity) (p : Q) : Entity :=
  {| id := id e; title := title e; position := p |}.

(** An array element: a row or [undefined]. *)
Definition Slot : Type := option Entity.

(** A drag-and-drop index: an integer or [null]. *)
Definition Index : Type := option Z.

(** ToNumber of an index, as [toIndex - 1] and [toIndex + 1] apply it:
    [null] counts as [0]. *)
Definition toNumber (i : Index) : Z :=
  match i with
  | Some z => z
  | None => 0
  end.

(** The actual start of [splice(start, ...)] on an array of [len]
    elements: a negative [start] counts from the end, and the result is
    clamped to [0..len]. *)
Definition relativeStart (len : nat) (start : Z) : nat :=
  if start <? 0
  then Z.to_nat (Z.max (Z.of_nat len + start) 0)
  else Z.to_nat (Z.min start (Z.of_nat len)).

(** [arr.splice(start, 1)]: the array left and the array returned. *)
Definition spliceDelete1 {A : Type} (arr : list A) (start : Z)
  : list A * list A :=
  let k := relativeStart (List.length arr) start in
  ((firstn k arr ++ skipn (S k) arr)%list, firstn 1 (skipn k arr)).

(** [arr.splice(start, 0, item)]. *)
Definition spliceInsert {A : Type} (arr : list A) (start : Z) (item : A)
  : list A :=
  let k := relativeStart (List.length arr) start in
  (firstn k arr ++ item :: skipn k arr)%list.

(** [arr[i]]: [undefined] outside the array. *)
Definition get (arr : list Slot) (i : Z) : Slot :=
  if i <? 0 then None
  else match nth_error arr (Z.to_nat i) with
       | Some slot => slot
       | None => None
       end.

(** [removed[0]] of the array a [splice] returns. *)
Definition first (removed : list Slot) : Slot :=
  match removed with
  | slot :: _ => slot
  | [] => None
  end.

(** [!slot]. *)
Definition absent (slot : Slot) : bool :=
  match slot with
  | Some _ => false
  | None => true
  end.

(** [slot.position], a [TypeError] on [undefined]. *)
Definition positionOf (slot : Slot) : result Q :=
  match slot with
  | Some e => Ok (position e)
  | None => TypeError
  end.

(** [slot.title], likewise. *)
Definition titleOf (slot : Slot) : result string :=
  match slot with
  | Some e => Ok (title e)
  | None => TypeError
  end.

Definition ceil (x : Q) : Q := inject_Z (Qceiling x).
Definition floor (x : Q) : Q := inject_Z (Qfloor x).

(** Lines 422-427 (lists) and 457-461 (cards): the copy of the rows after
    the removal at [fromIndex], with the element removed. *)
Definition removeMoved (arr : list Entity) (fromIndex : Index)
  : list Slot * Slot :=
  let result := map Some arr in
  match fromIndex with
  | Some i => let '(rest, removed) := spliceDelete1 result i in
              (rest, first removed)
  | None => (result, None)
  end.

(** Lines 429-431: the insertion at [toIndex], if any. *)
Definition insertAt (rest : list Slot) (toIndex : Index) (slot : Slot)
  : list Slot :=
  match toIndex with
  | Some j => spliceInsert rest j slot
  | None => rest
  end.

(** Lines 434-435 and 467-468. *)
Definition neighbours (result : list Slot) (toIndex : Index) : Slot * Slot :=
  (get result (toNumber toIndex - 1), get result (toNumber toIndex + 1)).

(** Lines 433-442. *)
Definition listPosition (toPrev toNext : Slot) : result Q :=
  if absent toNext then
    p <- positionOf toPrev ;; Ok (ceil (p + 1)%Q)
  else if absent toPrev then
    n <- positionOf toNext ;; Ok (floor (n - 1)%Q)
  else
    n <- positionOf toNext ;; p <- positionOf toPrev ;; Ok ((n + p) / 2)%Q.

(** Lines 466-477. *)
Definition cardPosition (toPrev toNext : Slot) : result Q :=
  if absent toNext && absent toPrev then
    Ok 1%Q
  else if absent toNext then
    p <- positionOf toPrev ;; Ok (ceil (p + 1)%Q)
  else if absent toPrev then
    n <- positionOf toNext ;; Ok (floor (n - 1)%Q)
  else
    n <- positionOf toNext ;; p <- positionOf toPrev ;; Ok ((n + p) / 2)%Q.

(** What [changeListPosition] hands over: the position sent with
    [updateList] and the rows committed with [SET_NEW_LIST_ORDER]. *)
Record ListMove : Type :=
  { listNewPosition : Q;
    listRows : list Slot }.

Definition changeListPosition (arr : list Entity) (fromIndex toIndex : Index)
  : result ListMove :=
  let '(rest, movedList) := removeMoved arr fromIndex in
  let result := insertAt rest toIndex movedList in
  let '(toPrev, toNext) := neighbours result toIndex in
  newPosition <- listPosition toPrev toNext ;;
  (* the debug message reads [movedList.title] *)
  _ <- titleOf movedList ;;
  (* [movedList.position = newPosition] shows in [result], which holds
     the same object *)
  let moved := option_map (fun e => setPosition e newPosition) movedList in
  Ok {| listNewPosition := newPosition;
        listRows := insertAt rest toIndex moved |}.

(** What [changeCardPosition] hands over: the position sent with
    [updateCard], if any, and the rows stored in [list.cards.rows]. *)
Record CardMove : Type :=
  { cardNewPosition : option Q;
    cardRows : list Slot }.

Definition changeCardPosition (rows : list Entity)
           (fromIndex toIndex : Index) (card : Entity) : result CardMove :=
  let '(rest, _) := removeMoved rows fromIndex in
  match toIndex with
  | Some j =>
      let result := spliceInsert rest j (Some card) in
      let '(toPrev, toNext) := neighbours result toIndex in
      newPosition <- cardPosition toPrev toNext ;;
      (* the debug message reads [card.title] *)
      _ <- titleOf (Some card) ;;
      (* [card.position = newPosition] shows in [result], which holds
         [card] *)
      Ok {| cardNewPosition := Some newPosition;
            cardRows := spliceInsert rest j (Some (setPosition card newPosition)) |}
  | None =>
      (* first call at moving between lists *)
      Ok {| cardNewPosition := None; cardRows := rest |}
  end.

End Store.

Import Store.

(** ** Vocabulary of the statements *)

(** A value whose properties can be read: anything but [undefined] and
    [null]. *)
Definition defined (v : jsval) : bool :=
  match v with
  | JUndefined | JNull => false
  | _ => true
  end.

(** The lines the callback pushes for one entry, and for a run of entries
    that starts at index [idx] of a map of [len] entries. *)
Definition emitted (len idx : nat) (entry : string * jsval) : list string :=
  match fieldType (snd entry) with
  | Ok (Some type) => [fieldLine len (fst entry) type idx]
  | _ => []
  end.

Fixpoint emittedLines (len idx : nat) (entries : list (string * jsval))
  : list string :=
  match entries with
  | [] => []
  | entry :: rest => emitted len idx entry ++ emittedLines len (S idx) rest
  end%list.

(** The descriptor of an array of strings, and an array descriptor that
    names its GraphQL type. *)
Definition tagsField : jsval :=
  JObj [("type", JStr "array"); ("items", JObj [("type", JStr "string")])].

Definition labelsField : jsval :=
  JObj [("type", JStr "array"); ("graphqlType", JStr "Label")].

(** The neighbours [changeCardPosition] reads for the target [j], and those
    [changeListPosition] reads. *)
Definition cardNeighbours (rows : list Entity) (fromIndex : Index) (j : Z)
           (card : Entity) : Slot * Slot :=
  neighbours (spliceInsert (fst (removeMoved rows fromIndex)) j (Some card))
             (Some j).

Definition listNeighbours (rows : list Entity) (fromIndex toIndex : Index)
  : Slot * Slot :=
  let '(rest, movedList) := removeMoved rows fromIndex in
  neighbours (insertAt rest toIndex movedList) toIndex.

(** Rows of a board, at the positions 1, 2, 3 and 4. *)
Definition rowA : Entity := mkEntity "A" "a" 1.
Definition rowB : Entity := mkEntity "B" "b" 2.
Definition rowC : Entity := mkEntity "C" "c" 3.
Definition rowD : Entity := mkEntity "D" "d" 4.

(** A row at a fractional position. *)
Definition rowH : Entity := mkEntity "H" "h" (5 # 2).

(** [x < y] on positions, as a test. *)
Definition Qltb (x y : Q) : bool := negb (Qle_bool y x).

(** ** The frontend store: the mutations *)

Module Mutations.

Local Open Scope Z_scope.

(** What a mutation can throw. *)
Inductive exn : Type :=
| TypeErrorExn
| ReferenceErrorExn.

Inductive outcome (A : Type) : Type :=
| Done (a : A)
| Thrown (e : exn).
Arguments Done {A} a.
Arguments Thrown {A} e.

(** [rows.find(c => c.id == ident)], on rows whose ids are strings. *)
Fixpoint find (rows : list Entity) (ident : string) : option Entity :=
  match rows with
  | [] => None
  | r :: rest => if (id r =? ident)%string then Some r else find rest ident
  end.

(** [rows.findIndex(c => c.id === ident)]: [-1] when no row matches. *)
Fixpoint findIndex (rows : list Entity) (ident : string) : Z :=
  match rows with
  | [] => -1
  | r :: rest =>
      if (id r =? ident)%string then 0
      else let i := findIndex rest ident in
           if i <? 0 then -1 else i + 1
  end.

(** [Object.assign(target, source)] on the properties of a row. *)
Definition assign (target source : Entity) : Entity :=
  {| id := id source; title := title source; position := position source |}.

(** The rows once [Object.assign(found, source)] has changed, in place, the
    row that [find] returned for the id of [source]. *)
Fixpoint assignFound (rows : list Entity) (source : Entity) : list Entity :=
  match rows with
  | [] => []
  | r :: rest =>
      if (id r =? id source)%string then assign r source :: rest
      else r :: assignFound rest source
  end.

(** Lines 557-559, on [state.board.lists.rows]. *)
Definition ADD_LIST (rows : list Entity) (lst : Entity) : list Entity :=
  (rows ++ [lst])%list.

(** Lines 561-568: [Object.assign(found, board)] names a variable [board]
    that is declared nowhere in the module (and is taken not to be a global
    of the page either). *)
Definition UPDATE_LIST (rows : list Entity) (lst : Entity)
  : outcome (list Entity) :=
  match find rows (id lst) with
  | Some found => Thrown ReferenceErrorExn
  | None => Done (rows ++ [lst])%list
  end.

(** Lines 570-572. *)
Definition REMOVE_LIST (rows : list Entity) (ident : string) : list Entity :=
  filter (fun b => negb (id b =? ident)%string) rows.

(** Lines 574-576, on [list.cards.rows]. *)
Definition ADD_CARD (rows : list Entity) (card : Entity) : list Entity :=
  (rows ++ [card])%list.

(** Lines 578-585. *)
Definition UPDATE_CARD (rows : list Entity) (card : Entity) : list Entity :=
  match find rows (id card) with
  | Some found => assignFound rows card
  | None => (rows ++ [card])%list
  end.

(** Lines 587-590. *)
Definition REMOVE_CARD (rows : list Entity) (ident : string) : list Entity :=
  let idx := findIndex rows ident in
  if 0 <=? idx then fst (spliceDelete1 rows idx) else rows.

(** A board of [state.boards]: its id and its other own properties, in
    insertion order. *)
Record Board : Type := mkBoard
  { boardId : string;
    boardProps : list (string * jsval) }.

(** [props[k] = v]: an existing property keeps its place. *)
Fixpoint setProp (props : list (string * jsval)) (k : string) (v : jsval)
  : list (string * jsval) :=
  match props with
  | [] => [(k, v)]
  | (k', v') :: rest =>
      if (k' =? k)%string then (k, v) :: rest
      else (k', v') :: setProp rest k v
  end.

(** [k in props], for own properties. *)
Definition hasProp (props : list (string * jsval)) (k : string) : bool :=
  existsb (fun kv => (fst kv =? k)%string) props.

(** [Object.assign(target, source)] on property lists. *)
Definition assignProps (target source : list (string * jsval))
  : list (string * jsval) :=
  fold_left (fun acc kv => setProp acc (fst kv) (snd kv)) source target.

Definition assignBoard (target source : Board) : Board :=
  {| boardId := boardId source;
     boardProps := assignProps (boardProps target) (boardProps source) |}.

Fixpoint findBoard (boards : list Board) (ident : string) : option Board :=
  match boards with
  | [] => None
  | b :: rest =>
      if (boardId b =? ident)%string then Some b else findBoard rest ident
  end.

Fixpoint assignFoundBoard (boards : list Board) (source : Board) : list Board :=
  match boards with
  | [] => []
  | b :: rest =>
      if (boardId b =? boardId source)%string then assignBoard b source :: rest
      else b :: assignFoundBoard rest source
  end.

(** Lines 540-542. *)
Definition ADD_BOARD (boards : list Board) (board : Board) : list Board :=
  (boards ++ [board])%list.

(** Lines 544-551. *)
Definition UPDATE_BOARD (boards : list Board) (board : Board) : list Board :=
  match findBoard boards (boardId board) with
  | Some found => assignFoundBoard boards board
  | None => (boards ++ [board])%list
  end.

(** Lines 553-555. *)
Definition REMOVE_BOARD (boards : list Board) (ident : string) : list Board :=
  filter (fun b => negb (boardId b =? ident)%string) boards.

End Mutations.

Import Mutations.

(** ** The moves on binary64 positions

    The positions the store holds are JavaScript numbers, that is IEEE-754
    binary64 values.  This module has the two actions again, line by line
    as in [Store], with the arithmetic of the source: [+], [-] and [/] round
    to the nearest double (ties to even), as [SFadd], [SFsub] and [SFdiv] of
    the standard library specify it for a precision of 53 bits, and
    [Math.ceil] and [Math.floor] are exact. *)

Module Doubles.

Local Open Scope Z_scope.

(** The binary64 format: 53 binary digits, exponents below 1024. *)
Definition prec : Z := 53.
Definition emax : Z := 1024.

(** A JavaScript number: a zero, an infinity, [NaN], or a sign, a mantissa
    and an exponent. *)
Definition double : Type := spec_float.

(** [x + y], [x - y] and [x / y], rounded to the nearest double. *)

Definition add (x y : double) : double := SFadd prec emax x y.
Definition sub (x y : double) : double := SFsub prec emax x y.
Definition div (x y : double) : double := SFdiv prec emax x y.

(** The literals [1] and [2]. *)
Definition one : double := S754_finite false 4503599627370496 (-52).
Definition two : double := S754_finite false 4503599627370496 (-51).

(** The number a finite double with the signed mantissa [n] and the
    exponent [e] stands for: [n * 2^e]. *)
Definition scaled (n : Z) (e : Z) : Q :=
  match e with
  | Z0 => inject_Z n
  | Zpos k => inject_Z (n * Z.pow_pos 2 k)
  | Zneg k => Qmake n (shift_pos k 1)
  end.

(** The number a double stands for; [None] for [NaN] and the infinities. *)
Definition valueOf (x : double) : option Q :=
  match x with
  | S754_zero _ => Some 0%Q
  | S754_finite s m e => Some (scaled (cond_Zopp s (Zpos m)) e)
  | S754_infinity _ | S754_nan => None
  end.

(** The double of the sign [s] whose magnitude is the integer [p]: the
    mantissa is filled up to 53 bits. *)
Definition integral (s : bool) (p : positive) : double :=
  match prec - Zpos (digits2_pos p) with
  | Zpos k => S754_finite s (shift_pos k p) (Zneg k)
  | _ => S754_finite s p 0
  end.

(** The double that is the integer [z]; a zero keeps the sign [s]. *)
Definition ofInteger (s : bool) (z : Z) : double :=
  match z with
  | Z0 => S754_zero s
  | Zpos p => integral false p
  | Zneg p => integral true p
  end.

(** [Math.ceil(x)]: a double with an exponent of 0 or more is an integer,
    as are the zeros; [NaN] and the infinities are returned as they are. *)
Definition ceil (x : double) : double :=
  match x with
  | S754_finite s m e =>
      if e <? 0
      then ofInteger s (Qceiling (scaled (cond_Zopp s (Zpos m)) e))
      else x
  | _ => x
  end.

(** [Math.floor(x)]. *)
Definition floor (x : double) : double :=
  match x with
  | S754_finite s m e =>
      if e <? 0
      then ofInteger s (Qfloor (scaled (cond_Zopp s (Zpos m)) e))
      else x
  | _ => x
  end.

(** A row of [board.lists.rows] or of [list.cards.rows]. *)
Record Entity : Type := mkEntity
  { id : string;
    title : string;
    position : double }.

(** [entity.position = p]. *)
Definition setPosition (e : Entity) (p : double) : Entity :=
  {| id := id e; title := title e; position := p |}.

(** An array element: a row or [undefined]. *)
Definition Slot : Type := option Entity.

(** [arr[i]]: [undefined] outside the array. *)
Definition get (arr : list Slot) (i : Z) : Slot :=
  if i <? 0 then None
  else match nth_error arr (Z.to_nat i) with
       | Some slot => slot
       | None => None
       end.

(** [removed[0]] of the array a [splice] returns. *)
Definition first (removed : list Slot) : Slot :=
  match removed with
  | slot :: _ => slot
  | [] => None
  end.

(** [!slot]. *)
Definition absent (slot : Slot) : bool :=
  match slot with
  | Some _ => false
  | None => true
  end.

(** [slot.position], a [TypeError] on [undefined]. *)
Definition positionOf (slot : Slot) : result double :=
  match slot with
  | Some e => Ok (position e)
  | None => TypeError
  end.

(** [slot.title], likewise. *)
Definition titleOf (slot : Slot) : result string :=
  match slot with
  | Some e => Ok (title e)
  | None => TypeError
  end.

(** Lines 422-427 (lists) and 457-461 (cards): the copy of the rows after
    the removal at [fromIndex], with the element removed. *)
Definition removeMoved (arr : list Entity) (fromIndex : Index)
  : list Slot * Slot :=
  let result := map Some arr in
  match fromIndex with
  | Some i => let '(rest, removed) := spliceDelete1 result i in
              (rest, first removed)
  | None => (result, None)
  end.

(** Lines 429-431: the insertion at [toIndex], if any. *)
Definition insertAt (rest : list Slot) (toIndex : Index) (slot : Slot)
  : list Slot :=
  match toIndex with
  | Some j => spliceInsert rest j slot
  | None => rest
  end.

(** Lines 434-435 and 467-468. *)
Definition neighbours (result : list Slot) (toIndex : Index) : Slot * Slot :=
  (get result (toNumber toIndex - 1), get result (toNumber toIndex + 1)).

(** Lines 433-442. *)
Definition listPosition (toPrev toNext : Slot) : result double :=
  if absent toNext then
    p <- positionOf toPrev ;; Ok (ceil (add p one))
  else if absent toPrev then
    n <- positionOf toNext ;; Ok (floor (sub n one))
  else
    n <- positionOf toNext ;; p <- positionOf toPrev ;; Ok (div (add n p) two).

(** Lines 466-477. *)
Definition cardPosition (toPrev toNext : Slot) : result double :=
  if absent toNext && absent toPrev then
    Ok one
  else if absent toNext then
    p <- positionOf toPrev ;; Ok (ceil (add p one))
  else if absent toPrev then
    n <- positionOf toNext ;; Ok (floor (sub n one))
  else
    n <- positionOf toNext ;; p <- positionOf toPrev ;; Ok (div (add n p) two).

(** What [changeListPosition] hands over: the position sent with
    [updateList] and the rows committed with [SET_NEW_LIST_ORDER]. *)
Record ListMove : Type :=
  { listNewPosition : double;
    listRows : list Slot }.

(** Lines 419-454. *)
Definition changeListPosition (arr : list Entity) (fromIndex toIndex : Index)
  : result ListMove :=
  let '(rest, movedList) := removeMoved arr fromIndex in
  let result := insertAt rest toIndex movedList in
  let '(toPrev, toNext) := neighbours result toIndex in
  newPosition <- listPosition toPrev toNext ;;
  (* the debug message reads [movedList.title] *)
  _ <- titleOf movedList ;;
  (* [movedList.position = newPosition] shows in [result], which holds
     the same object *)
  let moved := option_map (fun e => setPosition e newPosition) movedList in
  Ok {| listNewPosition := newPosition;
        listRows := insertAt rest toIndex moved |}.

(** What [changeCardPosition] hands over: the position sent with
    [updateCard], if any, and the rows stored in [list.cards.rows]. *)
Record CardMove : Type :=
  { cardNewPosition : option double;
    cardRows : list Slot }.

(** Lines 456-498. *)
Definition changeCardPosition (rows : list Entity)
           (fromIndex toIndex : Index) (card : Entity) : result CardMove :=
  let '(rest, _) := removeMoved rows fromIndex in
  match toIndex with
  | Some j =>
      let result := spliceInsert rest j (Some card) in
      let '(toPrev, toNext) := neighbours result toIndex in
      newPosition <- cardPosition toPrev toNext ;;
      (* the debug message reads [card.title] *)
      _ <- titleOf (Some card) ;;
      (* [card.position = newPosition] shows in [result], which holds
         [card] *)
      Ok {| cardNewPosition := Some newPosition;
            cardRows := spliceInsert rest j (Some (setPosition card newPosition)) |}
  | None =>
      (* first call at moving between lists *)
      Ok {| cardNewPosition := None; cardRows := rest |}
  end.

(** *** Vocabulary *)

(** The double [x] is the number [q]. *)
Definition isNumber (x : double) (q : Q) : bool :=
  match valueOf x with
  | Some v => Qeq_bool v q
  | None => false
  end.

(** [x < y] for two numbers. *)
Definition below (x y : double) : bool :=
  match valueOf x, valueOf y with
  | Some a, Some b => Qltb a b
  | _, _ => false
  end.

(** [x + y] and [x - y] are computed without rounding. *)
Definition exactSum (x y : double) : bool :=
  match valueOf x, valueOf y with
  | Some a, Some b => isNumber (add x y) (a + b)
  | _, _ => false
  end.

Definition exactDifference (x y : double) : bool :=
  match valueOf x, valueOf y with
  | Some a, Some b => isNumber (sub x y) (a - b)
  | _, _ => false
  end.

(** [(next + prev) / 2] is computed without rounding. *)
Definition exactMean (prev next : double) : bool :=
  match valueOf prev, valueOf next with
  | Some a, Some b => isNumber (div (add next prev) two) ((a + b) / 2)
  | _, _ => false
  end.

(** The siblings of a move: the rows without the one at [fromIndex]. *)
Definition siblingsOf (rows : list Entity) (fromIndex : Index) : list Entity :=
  match fromIndex with
  | Some i => fst (spliceDelete1 rows i)
  | None => rows
  end.

(** The rows are numbers, strictly ascending by position. *)
Fixpoint ascending (rows : list Entity) : bool :=
  match rows with
  | a :: ((b :: _) as rest) =>
      below (position a) (position b) && ascending rest
  | _ => true
  end.

(** The position computed for the slot [j] of the siblings is free of
    rounding. *)
Definition exactAt (siblings : list Entity) (j : Z) : bool :=
  match get (map Some siblings) (j - 1), get (map Some siblings) j with
  | Some a, Some b => exactMean (position a) (position b)
  | Some a, None => exactSum (position a) one
  | None, Some b => exactDifference (position b) one
  | None, None => true
  end.

(** Every move into the slot [j] computes the position [p]: the move of
    any card, and the move of a list that is among the rows. *)
Definition movesGive (rows : list Entity) (fromIndex : Index) (j : Z)
           (p : double) : Prop :=
  (forall card,
      exists m, changeCardPosition rows fromIndex (Some j) card = Ok m /\
                cardNewPosition m = Some p) /\
  (forall i moved,
      fromIndex = Some i -> 0 <= i ->
      nth_error rows (Z.to_nat i) = Some moved ->
      exists m, changeListPosition rows fromIndex (Some j) = Ok m /\
                listNewPosition m = p).

(** The doubles [2^-60], [-2^-60], [1 + 2^-52], [2^53], [-2^53], [-1],
    [3/2], [5/2], [3], [4] and [5]. *)
Definition tiny : double := S754_finite false 4503599627370496 (-112).
Definition tinyNegative : double := S754_finite true 4503599627370496 (-112).
Definition onePlus : double := S754_finite false 4503599627370497 (-52).
Definition huge : double := S754_finite false 4503599627370496 1.
Definition hugeNegative : double := S754_finite true 4503599627370496 1.
Definition minusOne : double := S754_finite true 4503599627370496 (-52).
Definition threeHalves : double := S754_finite false 6755399441055744 (-52).
Definition fiveHalves : double := S754_finite false 5629499534213120 (-51).
Definition three : double := S754_finite false 6755399441055744 (-51).
Definition four : double := S754_finite false 4503599627370496 (-50).
Definition five : double := S754_finite false 5629499534213120 (-50).

(** Rows at the positions 1, 2, 3 and 5/2. *)
Definition rowA : Entity := mkEntity "A" "a" one.
Definition rowB : Entity := mkEntity "B" "b" two.
Definition rowC : Entity := mkEntity "C" "c" three.
Definition rowH : Entity := mkEntity "H" "h" fiveHalves.

End Doubles.

(** ** backend/services/api.service.js: [authenticate] *)

Module ApiService.

(** A user as [v1.accounts.resolveToken] returns it: its own properties
    other than [roles], and the elements of [roles] when it is an array. *)
Record User : Type := mkUser
  { userProps : list (string * jsval);
    userRoles : option (list string) }.

(** The headers [authenticate] reads: a string or [undefined] each. *)
Record Request : Type := mkRequest
  { headerCookie : option string;
    headerAuthorization : option string }.

(** What [authenticate] leaves in [ctx.meta]; [None] is a property that was
    not assigned. *)
Record Meta : Type := mkMeta
  { roles : list string;
    token : option string;
    userID : option jsval }.

(** What [authenticate] returns. *)
Inductive Returned : Type :=
| RetUser (props : list (string * jsval))
| RetNull
| RetUndefined.

(** The outcome of a call: the meta data, the value returned, and the tokens
    [v1.accounts.resolveToken] was called with. *)
Record Authenticated : Type := mkAuthenticated
  { meta : Meta;
    returned : Returned;
    resolved : list string }.

(** Truthiness of a string or [undefined]. *)
Definition nonEmpty (s : option string) : bool :=
  match s with
  | Some s => negb (s =? "")
  | None => false
  end.

(** [s.slice(n)] for [n] within the string. *)
Fixpoint slice (n : nat) (s : string) : string :=
  match n, s with
  | O, _ => s
  | S n, String _ rest => slice n rest
  | S _, EmptyString => EmptyString
  end.

(** [cookies[name]] on the object [cookie.parse] returns. *)
Fixpoint cookieValue (cookies : list (string * string)) (name : string)
  : option string :=
  match cookies with
  | [] => None
  | (k, v) :: rest => if k =? name then Some v else cookieValue rest name
  end.

(** [_.pick(object, names)] on own properties. *)
Fixpoint pick (props : list (string * jsval)) (names : list string)
  : list (string * jsval) :=
  match names with
  | [] => []
  | k :: rest =>
      if existsb (fun kv => fst kv =? k) props
      then (k, assoc k props) :: pick props rest
      else pick props rest
  end.

Section Authenticate.

(** [C.ROLE_EVERYONE] and [C.ROLE_AUTHENTICATED] of [../constants]. *)
Variables ROLE_EVERYONE ROLE_AUTHENTICATED : string.

(** [cookie.parse] of the [cookie] package. *)
Variable cookieParse : string -> list (string * string).

(** The action [v1.accounts.resolveToken]: a user or [null]. *)
Variable resolveToken : string -> option User.

(** Lines 169-181: the token of the cookie, else of the header. *)
Definition requestToken (req : Request) : option string :=
  let token :=
    if nonEmpty (headerCookie req)
    then match headerCookie req with
         | Some c => cookieValue (cookieParse c) "jwt-token"
         | None => None
         end
    else None in
  if nonEmpty token then token
  else
    match headerAuthorization req with
    | Some auth =>
        if negb (auth =? "") && String.prefix "Bearer " auth
        then Some (slice 7 auth)
        else token
    | None => token
    end.

(** Lines 168-206. *)
Definition authenticate (req : Request) : Authenticated :=
  let token := requestToken req in
  let roles := [ROLE_EVERYONE] in
  if nonEmpty token then
    match token with
    | Some t =>
        match resolveToken t with
        | Some user =>
            let roles := (roles ++ [ROLE_AUTHENTICATED])%list in
            let roles :=
              match userRoles user with
              | Some rs => (roles ++ rs)%list
              | None => roles
              end in
            {| meta := {| roles := roles;
                          token := Some t;
                          userID := Some (assoc "id" (userProps user)) |};
               returned :=
                 RetUser (pick (userProps user)
                               ["id"; "email"; "username"; "fullName"; "avatar"]);
               resolved := [t] |}
        | None =>
            {| meta := {| roles := roles; token := None; userID := None |};
               returned := RetNull;
               resolved := [t] |}
        end
    | None =>
        {| meta := {| roles := roles; token := None; userID := None |};
           returned := RetUndefined;
           resolved := [] |}
    end
  else
    {| meta := {| roles := roles; token := None; userID := None |};
       returned := RetUndefined;
       resolved := [] |}.

End Authenticate.

End ApiService.

Import ApiService.

(** ** The boards service: [isEntityOwner] *)

Module Boards.

(** An id as the services compare it: a string, [null] or [undefined]. *)
Inductive ident : Type :=
| IdUndefined
| IdNull
| IdStr (s : string).

(** [a == b] on ids: strings as such, and [null] and [undefined] equal to
    each other and to nothing else. *)
Definition looseEqId (a b : ident) : bool :=
  match a, b with
  | IdStr s, IdStr t => s =? t
  | IdStr _, _ | _, IdStr _ => false
  | _, _ => true
  end.

(** Lines 152-154: [ctx.entity] is an entity, given by its [owner], or is
    absent; [userID] is [ctx.meta.userID]. *)
Definition isEntityOwner (entityOwner : option ident) (userID : ident) : bool :=
  match entityOwner with
  | Some owner => looseEqId owner userID
  | None => false
  end.

End Boards.

Import Boards.

(** ** backend/mixins/apollo-server-moleculer/moleculerApollo.js *)

Module MoleculerApollo.

(** An error as the handler reads it; [None] is an error without
    [headers]. *)
Record Error : Type := mkError
  { errName : string;
    errHeaders : option (list (string * string));
    errStatusCode : jsval;
    errCode : jsval;
    errMessage : string }.

(** The request: its method, [req.filePayload], [req.body], and
    [url.parse(req.url, true).query], which can throw. *)
Record HttpRequest : Type := mkHttpRequest
  { method : string;
    filePayload : jsval;
    body : jsval;
    urlQuery : result jsval }.

(** What [runHttpQuery] does: it resolves to a response and its headers, or
    throws. *)
Inductive Ran : Type :=
| Responded (graphqlResponse : string) (headers : list (string * string))
| Failed (error : Error).

(** What the handler did with [res], and what it returned ([None] is
    [undefined]). *)
Record Handled : Type := mkHandled
  { resHeaders : list (string * string);
    resStatusCode : option jsval;
    resEnd : option string;
    handlerReturned : option string }.

(** [a || b]. *)
Definition orElse (a b : jsval) : jsval := if truthy a then a else b.

(** [query.length]: the length of a string (of ASCII characters), the
    property of an object. *)
Definition lengthOf (query : jsval) : jsval :=
  match query with
  | JStr s => JNum (Z.of_nat (String.length s))
  | JObj props => assoc "length" props
  | _ => JUndefined
  end.

Section Handler.

(** ToNumber on strings; [None] is [NaN]. *)
Variable stringToNumber : string -> option Q.

(** [runHttpQuery], given the request and the query. *)
Variable runHttpQuery : HttpRequest -> jsval -> Ran.

(** [new MoleculerClientError("Query too large.", 400, "QUERY_TOO_LARGE")]. *)
Variable queryTooLarge : Error.

(** [v > n] for an integer [n]. *)
Definition greaterThan (v : jsval) (n : Z) : bool :=
  match v with
  | JNum z => (n <? z)%Z
  | JStr s => match stringToNumber s with
              | Some q => negb (Qle_bool q (inject_Z n))
              | None => false
              end
  | JBool b => (n <? (if b then 1 else 0))%Z
  | JNull => (n <? 0)%Z
  | JUndefined | JObj _ => false
  end.

(** Lines 24-32. *)
Definition queryOf (req : HttpRequest) : jsval :=
  if method req =? "POST" then orElse (filePayload req) (body req)
  else match urlQuery req with
       | Ok query => query
       | TypeError => JUndefined
       end.

(** Lines 53-67: the [catch] block. *)
Definition answerError (error : Error) : Handled :=
  let headers :=
    if errName error =? "HttpQueryError"
    then match errHeaders error with
         | Some headers => headers
         | None => []
         end
    else [] in
  let statusCode :=
    if negb (truthy (errStatusCode error)) then JNum 500
    else errStatusCode error in
  {| resHeaders := headers;
     resStatusCode := Some (orElse (orElse statusCode (errCode error)) (JNum 500));
     resEnd := Some (errMessage error);
     handlerReturned := None |}.

(** Lines 23-68. *)
Definition graphqlHandler (req : HttpRequest) : Handled :=
  let query := queryOf req in
  if truthy query && greaterThan (lengthOf query) 2000
  then answerError queryTooLarge
  else
    match runHttpQuery req query with
    | Responded graphqlResponse headers =>
        {| resHeaders := headers;
           resStatusCode := None;
           resEnd := None;
           handlerReturned := Some graphqlResponse |}
    | Failed error => answerError error
    end.

End Handler.

End MoleculerApollo.

Import MoleculerApollo.

(** A cookie parser, a user and a token resolver to try [authenticate]
    on. *)
Definition demoCookieParse (c : string) : list (string * string) :=
  if c =? "jwt-token=abc" then [("jwt-token", "abc")] else [].

Definition demoUser : User :=
  mkUser [("id", JStr "u1"); ("username", JStr "ann");
          ("password", JStr "secret")]
         (Some ["administrator"]).

Definition demoResolveToken (t : string) : option User :=
  if t =? "abc" then Some demoUser else None.

(** A [runHttpQuery] that answers every query, and an error to reject
    with. *)
Definition demoRun (req : HttpRequest) (query : jsval) : Ran :=
  Responded "{}" [("Content-Type", "application/json")].

Definition demoTooLarge : Error :=
  mkError "MoleculerClientError" None JUndefined (JNum 400) "Query too large.".

(** The names and types of the fields of a map that are not skipped. *)
Fixpoint emittedFields (entries : list (string * jsval))
  : list (string * string) :=
  match entries with
  | [] => []
  | (name, field) :: rest =>
      match fieldType field with
      | Ok (Some type) => (name, type) :: emittedFields rest
      | _ => emittedFields rest
      end
  end.

(** Field lines with a comma after each but the last. *)
Fixpoint separated (fields : list (string * string)) : list string :=
  match fields with
  | [] => []
  | (name, type) :: rest =>
      match rest with
      | [] => ["  " ++ name ++ ": " ++ type]
      | _ :: _ => ("  " ++ name ++ ": " ++ type ++ ",") :: separated rest
      end
  end.

(** The siblings of a move: the rows without the one at [fromIndex]. *)
Definition siblingsOf (rows : list Entity) (fromIndex : Index) : list Entity :=
  match fromIndex with
  | Some i => fst (spliceDelete1 rows i)
  | None => rows
  end.

(** ** The generator: auxiliary facts *)

Section Generator.

Ltac split_ifs :=
  repeat match goal with
         | |- context [if ?c then _ else _] => destruct c eqn:?; cbn
         end.

Lemma string_app_assoc (a b c : string) : (a ++ b) ++ c = a ++ (b ++ c).
Proof. induction a as [|ch a IH]; cbn; congruence. Qed.

Lemma string_app_nil_r (a : string) : a ++ "" = a.
Proof. induction a as [|ch a IH]; cbn; congruence. Qed.

Lemma fieldType_defined (field : jsval) :
  defined field = true -> exists type, fieldType field = Ok type.
Proof.
  destruct field; cbn [defined]; try discriminate; intros _;
    try (eexists; vm_compute; reflexivity).
  unfold fieldType, declaredType, skipped, decorate, getProp; cbn [bind].
  split_ifs; eauto.
Qed.

Lemma fieldType_throws (field : jsval) :
  defined field = false -> fieldType field = TypeError.
Proof. destruct field; cbn; try discriminate; reflexivity. Qed.

Lemma callback_emitted (len : nat) (res : list string)
      (entry : string * jsval) (idx : nat) (res' : list string) :
  callback len res entry idx = Ok res' ->
  res' = (res ++ emitted len idx entry)%list.
Proof.
  destruct entry as [name field]; unfold callback, emitted; cbn.
  destruct (fieldType field) as [[type|]|]; cbn; intros H;
    inversion H; subst; auto using app_nil_r.
Qed.

Lemma forEach_emitted (len : nat) (entries : list (string * jsval)) :
  forall idx res res',
    forEach (callback len) entries idx res = Ok res' ->
    res' = (res ++ emittedLines len idx entries)%list.
Proof.
  induction entries as [|entry rest IH]; cbn; intros idx res res' H.
  - inversion H; subst. now rewrite app_nil_r.
  - destruct (callback len res entry idx) as [mid|] eqn:E; cbn in H;
      [|discriminate].
    apply callback_emitted in E; subst mid.
    apply IH in H; subst res'. now rewrite app_assoc.
Qed.

Lemma forEach_defined (len : nat) (entries : list (string * jsval)) :
  Forall (fun entry => defined (snd entry) = true) entries ->
  forall idx res,
    forEach (callback len) entries idx res
    = Ok (res ++ emittedLines len idx entries)%list.
Proof.
  induction 1 as [|[name field] rest Hd _ IH]; cbn; intros idx res.
  - now rewrite app_nil_r.
  - destruct (fieldType_defined field Hd) as [type E].
    unfold emitted; cbn; rewrite E; cbn.
    destruct type as [type|]; cbn; rewrite IH.
    + now rewrite <- app_assoc.
    + reflexivity.
Qed.

Lemma forEach_throws (len : nat) (entries : list (string * jsval)) :
  Exists (fun entry => defined (snd entry) = false) entries ->
  forall idx res, forEach (callback len) entries idx res = TypeError.
Proof.
  induction 1 as [[name field] rest Hd|[name field] rest _ IH];
    cbn; intros idx res.
  - cbn in Hd. now rewrite (fieldType_throws field Hd).
  - destruct (fieldType field) as [[type|]|]; cbn; auto.
Qed.

End Generator.

(** ** The generator: the statements of the specification *)

Section GeneratorClaims.

(** C2, as stated, fails: the items descriptor [{type: "string"}] resolves
    to [String], yet an array field with these items is emitted with the
    type [[array]], not [[String]]. *)
Lemma array_items_are_not_resolved :
  fieldType (JObj [("type", JStr "string")]) = Ok (Some "String") /\
  fieldType tagsField = Ok (Some "[array]") /\
  fieldType tagsField <> Ok (Some "[String]") /\
  generateType "Card" (Some [("tags", tagsField)])
  = Ok ("type Card {" ++ newline ++ "  tags: [array]" ++ newline ++ "}").
Proof. repeat split; try reflexivity; vm_compute; discriminate. Qed.

(** C2, amended: for a field descriptor of kind array with an items
    descriptor present, the emitted type is [[T]], followed by [!] when the
    field is required, where [T] is the descriptor's own type name: the
    override name under the scalar rules when there is one, the token
    [array] otherwise.  The items descriptor is tested for presence and
    never read.  (A field overridden to [object] without properties is
    skipped.) *)
Theorem array_type_wraps_own_name (props : list (string * jsval)) :
  assoc "type" props = JStr "array" ->
  truthy (assoc "items" props) = true ->
  let override := assoc "graphqlType" props in
  let inner := scalarName (if truthy override then override else JStr "array") in
  let mark := if truthy (assoc "required" props) then "!" else "" in
  fieldType (JObj props)
  = Ok (if looseEqStr inner "object" && negb (truthy (assoc "properties" props))
        then None
        else Some ("[" ++ toString inner ++ "]" ++ mark)).
Proof.
  intros Htype Hitems override inner mark.
  unfold fieldType, declaredType, skipped, decorate, getProp; cbn [bind].
  fold override. rewrite Htype. subst inner mark.
  destruct (truthy override) eqn:Hov; cbn [truthy bind negb String.eqb].
  - destruct (looseEqStr (scalarName override) "object") eqn:Hobj; cbn.
    + destruct (truthy (assoc "properties" props)); cbn; [|reflexivity].
      destruct (looseEqStr (scalarName override) "array") eqn:Harr; cbn.
      * rewrite Hitems; cbn.
        destruct (truthy (assoc "required" props)); cbn;
          now rewrite ?string_app_assoc, ?string_app_nil_r.
      * destruct (truthy (assoc "required" props)); cbn;
          now rewrite ?string_app_assoc, ?string_app_nil_r.
    + destruct (looseEqStr (scalarName override) "array") eqn:Harr; cbn.
      * rewrite Hitems; cbn.
        destruct (truthy (assoc "required" props)); cbn;
          now rewrite ?string_app_assoc, ?string_app_nil_r.
      * destruct (truthy (assoc "required" props)); cbn;
          now rewrite ?string_app_assoc, ?string_app_nil_r.
  - cbn. rewrite Hitems; cbn.
    destruct (truthy (assoc "required" props)); reflexivity.
Qed.

Lemma array_type_wraps_own_name_witness :
  let props := [("type", JStr "array");
                ("items", JObj [("type", JStr "string")]);
                ("required", JBool true)] in
  assoc "type" props = JStr "array" /\
  truthy (assoc "items" props) = true /\
  fieldType (JObj props) = Ok (Some "[array]!").
Proof.
  intros props. split; [reflexivity|split; [reflexivity|]].
  exact (array_type_wraps_own_name props eq_refl eq_refl).
Defined.

Lemma generateType_defined (name : string) (fields : list (string * jsval)) :
  Forall (fun entry => defined (snd entry) = true) fields ->
  generateType name (Some fields)
  = Ok (join ([header name]
                ++ emittedLines (List.length fields) 0 fields
                ++ ["}"])%list).
Proof.
  intros Hdef. unfold generateType, generateLines.
  rewrite (forEach_defined _ _ Hdef); cbn [bind].
  now rewrite <- app_assoc.
Qed.




(** The compile throws exactly on the maps with a [null] or [undefined]
    entry. *)
Lemma generateType_throws_iff (name : string) (fields : list (string * jsval)) :
  throws (generateType name (Some fields)) = true
  <-> Exists (fun entry => defined (snd entry) = false) fields.
Proof.
  split.
  - intros H.
    assert (Hcases :
              Forall (fun entry => defined (snd entry) = true) fields
              \/ Exists (fun entry => defined (snd entry) = false) fields).
    { clear H. induction fields as [|entry rest [IH|IH]]; auto.
      destruct (defined (snd entry)) eqn:E; auto. }
    destruct Hcases as [Hdef|Hex]; [|exact Hex].
    rewrite (generateType_defined name fields Hdef) in H.
    discriminate.
  - intros H. unfold generateType, generateLines.
    now rewrite (forEach_throws _ _ H).
Qed.

(** C6, as stated, fails: an array descriptor without items that carries
    an override type name is emitted. *)
Lemma overridden_array_without_items_is_emitted :
  getProp labelsField "items" = Ok JUndefined /\
  fieldType labelsField = Ok (Some "[Label]") /\
  generateType "Board" (Some [("labels", labelsField)])
  = Ok ("type Board {" ++ newline ++ "  labels: [Label]" ++ newline ++ "}").
Proof. repeat split. Qed.

Lemma emittedLines_app (len : nat) (pre post : list (string * jsval)) :
  forall idx,
    emittedLines len idx (pre ++ post)
    = (emittedLines len idx pre
         ++ emittedLines len (idx + List.length pre) post)%list.
Proof.
  induction pre as [|entry pre IH]; cbn; intros idx.
  - now rewrite Nat.add_0_r.
  - rewrite IH, <- app_assoc. now rewrite Nat.add_succ_r.
Qed.

(** C6, amended: take a field descriptor whose kind is array and which has
    no items descriptor, whatever its other attributes, and let [T] be its
    own type name: the override type name under the scalar rules when there
    is one, the token [array] otherwise.  When [T] is [array], or [T] is
    [object] and the descriptor has no properties, the field pushes no
    line: the output lines are those of the other entries of the map.  This
    is so for every descriptor without override type name.  In every other
    case the field is emitted with the type [[T]], followed by [!] when the
    field is required. *)
Theorem array_without_items_is_skipped
        (props : list (string * jsval)) (name field : string)
        (pre post : list (string * jsval)) :
  assoc "type" props = JStr "array" ->
  truthy (assoc "items" props) = false ->
  let override := assoc "graphqlType" props in
  let inner := scalarName (if truthy override then override else JStr "array") in
  let mark := if truthy (assoc "required" props) then "!" else "" in
  let skip := looseEqStr inner "array"
              || looseEqStr inner "object"
                 && negb (truthy (assoc "properties" props)) in
  let entries := (pre ++ (field, JObj props) :: post)%list in
  let len := List.length entries in
  let others := (emittedLines len 0 pre
                   ++ emittedLines len (S (List.length pre)) post)%list in
  let line := fieldLine len field ("[" ++ toString inner ++ "]" ++ mark)
                        (List.length pre) in
  fieldType (JObj props)
  = Ok (if skip then None else Some ("[" ++ toString inner ++ "]" ++ mark)) /\
  (truthy override = false -> skip = true) /\
  (skip = true ->
   (forall res idx, callback len res (field, JObj props) idx = Ok res) /\
   (forall lines,
       generateLines name (Some entries) = Ok lines ->
       lines = ([header name] ++ others ++ ["}"])%list) /\
   (Forall (fun entry => defined (snd entry) = true) (pre ++ post) ->
    generateLines name (Some entries)
    = Ok ([header name] ++ others ++ ["}"])%list)) /\
  (skip = false ->
   forall lines,
     generateLines name (Some entries) = Ok lines ->
     lines = ([header name] ++ emittedLines len 0 pre ++ [line]
                ++ emittedLines len (S (List.length pre)) post
                ++ ["}"])%list).
Proof.
  intros Htype Hitems override inner mark skip entries len others line.
  assert (Hfield : fieldType (JObj props)
                   = Ok (if skip then None
                         else Some ("[" ++ toString inner ++ "]" ++ mark))).
  { unfold fieldType, declaredType, skipped, decorate, getProp; cbn [bind].
    fold override. rewrite Htype. subst skip inner mark.
    destruct (truthy override) eqn:Hov; cbn [truthy bind negb String.eqb].
    - destruct (looseEqStr (scalarName override) "object") eqn:Hobj;
        destruct (looseEqStr (scalarName override) "array") eqn:Harr;
        cbn [bind andb orb];
        destruct (truthy (assoc "properties" props));
        cbn [negb bind andb orb];
        rewrite ?Harr, ?Hitems; cbn [negb bind looseEqStr String.eqb];
        try reflexivity;
        destruct (truthy (assoc "required" props)); cbn;
        now rewrite ?string_app_assoc, ?string_app_nil_r.
    - cbn. now rewrite Hitems. }
  assert (Hlines : emittedLines len 0 entries
                   = (emittedLines len 0 pre
                        ++ emitted len (List.length pre) (field, JObj props)
                        ++ emittedLines len (S (List.length pre)) post)%list).
  { unfold entries. rewrite emittedLines_app.
    cbn [emittedLines Nat.add]. reflexivity. }
  assert (Hgen : forall lines,
             generateLines name (Some entries) = Ok lines ->
             lines = ([header name] ++ emittedLines len 0 pre
                        ++ emitted len (List.length pre) (field, JObj props)
                        ++ emittedLines len (S (List.length pre)) post
                        ++ ["}"])%list).
  { intros lines H. unfold generateLines in H.
    destruct (forEach (callback (List.length entries)) entries 0
                      [header name]) as [res|] eqn:E;
      cbn in H; [|discriminate].
    apply forEach_emitted in E. inversion H; subst lines res.
    fold len. rewrite Hlines. now rewrite <- !app_assoc. }
  split; [exact Hfield|split; [|split]].
  - intros Hov. subst skip inner. now rewrite Hov.
  - intros Hskip. rewrite Hskip in Hfield.
    assert (Hnone : emitted len (List.length pre) (field, JObj props) = [])
      by (unfold emitted; cbn [snd]; now rewrite Hfield).
    split; [|split].
    + intros res idx. unfold callback. now rewrite Hfield.
    + intros lines H. apply Hgen in H. rewrite Hnone in H.
      subst lines others. cbn [app]. now rewrite <- app_assoc.
    + intros Hdef. unfold generateLines.
      rewrite forEach_defined.
      * cbn [bind]. fold len. rewrite Hlines, Hnone.
        subst others. cbn [app]. now rewrite <- app_assoc.
      * unfold entries. apply Forall_app in Hdef as [Hpre Hpost].
        apply Forall_app; split; [assumption|].
        constructor; [reflexivity|assumption].
  - intros Hskip lines H. rewrite Hskip in Hfield. apply Hgen in H.
    unfold emitted in H; cbn [fst snd] in H. now rewrite Hfield in H.
Qed.

Lemma array_without_items_is_skipped_witness :
  let props := [("type", JStr "array"); ("required", JBool true)] in
  let pre := [("title", JObj [("type", JStr "string")])] in
  let post := [("stars", JObj [("type", JStr "number")])] in
  assoc "type" props = JStr "array" /\
  truthy (assoc "items" props) = false /\
  fieldType (JObj props) = Ok None /\
  generateLines "Board" (Some (pre ++ ("labels", JObj props) :: post)%list)
  = Ok ["type Board {"; "  title: String,"; "  stars: Int"; "}"].
Proof.
  intros props pre post.
  split; [reflexivity|split; [reflexivity|]].
  pose (H := array_without_items_is_skipped
               props "Board" "labels" pre post eq_refl eq_refl).
  split; [exact (proj1 H)|].
  refine (proj2 (proj2 (proj1 (proj2 (proj2 H)) eq_refl)) _).
  repeat constructor.
Defined.

(** The override names of the scalars and of the two kinds that need a
    description, on an array descriptor without items. *)
Example overridden_array_without_items :
  let field := fun override =>
    JObj [("type", JStr "array"); ("graphqlType", JStr override)] in
  fieldType (field "array") = Ok None /\
  fieldType (field "object") = Ok None /\
  fieldType (JObj [("type", JStr "array"); ("graphqlType", JStr "object");
                   ("properties", JObj [])]) = Ok (Some "[object]") /\
  fieldType (field "number") = Ok (Some "[Int]") /\
  fieldType (field "string") = Ok (Some "[String]") /\
  fieldType (field "boolean") = Ok (Some "[Boolean]").
Proof. repeat split. Qed.

(** C7, on the code: when the last entry of the map is skipped, the last
    emitted field line keeps its comma. *)
Theorem trailing_comma_when_last_field_skipped :
  generateType "Board"
    (Some [("title", JObj [("type", JStr "string"); ("required", JBool true)]);
           ("labels", JObj [("type", JStr "array")])])
  = Ok ("type Board {" ++ newline ++ "  title: String!," ++ newline ++ "}").
Proof. reflexivity. Qed.

(** C10: a field whose entry is a plain string is emitted as
    [name: String], without required mark, whatever the string says (the
    bare string ["number"] included); the line carries the separator of its
    place in the map and stands between the lines of the other entries. *)
Theorem shorthand_string_field_is_String
        (s name : string) (len idx : nat) (res : list string) :
  fieldType (JStr s) = Ok (Some "String") /\
  callback len res (name, JStr s) idx
  = Ok (res ++ [("  " ++ name ++ ": String"
                      ++ (if (Z.of_nat idx <? Z.of_nat len - 1)%Z
                          then "," else ""))%string])%list /\
  (forall entity pre post,
      Forall (fun entry => defined (snd entry) = true) (pre ++ post) ->
      let entries := (pre ++ (name, JStr s) :: post)%list in
      let n := List.length entries in
      generateLines entity (Some entries)
      = Ok ([header entity]
              ++ emittedLines n 0 pre
              ++ [("  " ++ name ++ ": String"
                        ++ (if (Z.of_nat (List.length pre) <? Z.of_nat n - 1)%Z
                            then "," else ""))%string]
              ++ emittedLines n (S (List.length pre)) post
              ++ ["}"])%list).
Proof.
  assert (Hf : fieldType (JStr s) = Ok (Some "String")) by reflexivity.
  split; [exact Hf|split].
  - unfold callback. rewrite Hf. reflexivity.
  - intros entity pre post Hdef entries n.
    assert (Hall : Forall (fun entry => defined (snd entry) = true) entries).
    { unfold entries. apply Forall_app in Hdef as [Hpre Hpost].
      apply Forall_app; split; [assumption|].
      constructor; [reflexivity|assumption]. }
    unfold generateLines. rewrite (forEach_defined _ _ Hall); cbn [bind].
    fold n. unfold entries at 1. rewrite emittedLines_app.
    cbn [emittedLines Nat.add]. unfold emitted at 1; cbn [fst snd].
    rewrite Hf. rewrite <- !app_assoc. reflexivity.
Qed.

Lemma shorthand_string_field_is_String_witness :
  let pre := [("title", JObj [("type", JStr "string")])] in
  let post := [("stars", JObj [("type", JStr "number")])] in
  Forall (fun entry => defined (snd entry) = true) (pre ++ post) /\
  generateLines "Board" (Some (pre ++ ("description", JStr "number") :: post)%list)
  = Ok ["type Board {"; "  title: String,"; "  description: String,";
        "  stars: Int"; "}"].
Proof.
  intros pre post.
  assert (Hdef : Forall (fun entry => defined (snd entry) = true) (pre ++ post))
    by (repeat constructor).
  split; [exact Hdef|].
  exact (proj2 (proj2 (shorthand_string_field_is_String
                         "number" "description" 0 0 []))
               "Board" pre post Hdef).
Defined.

(** The two compiler scenarios of the specification. *)
Example scenario_board :
  generateType "Board"
    (Some [("title", JObj [("type", JStr "string"); ("required", JBool true)]);
           ("position", JObj [("type", JStr "number")])])
  = Ok ("type Board {" ++ newline ++ "  title: String!," ++ newline
          ++ "  position: Int" ++ newline ++ "}").
Proof. reflexivity. Qed.

Example scenario_labels :
  generateLines "Board" (Some [("labels", JObj [("type", JStr "array")])])
  = Ok ["type Board {"; "}"].
Proof. reflexivity. Qed.

End GeneratorClaims.

(** ** The ordering: auxiliary facts *)

Section Arrays.

Context {A : Type}.

Lemma relativeStart_index (len : nat) (j : Z) :
  (0 <= j <= Z.of_nat len)%Z -> relativeStart len j = Z.to_nat j.
Proof.
  intros Hj. unfold relativeStart.
  destruct (Z.ltb_spec j 0); [lia|]. f_equal. lia.
Qed.

(** The element at [i] once the element at [k] is gone. *)
Lemma nth_error_without (l : list A) (k i : nat) :
  nth_error (firstn k l ++ skipn (S k) l) i
  = if (i <? k)%nat then nth_error l i else nth_error l (S i).
Proof.
  rewrite nth_error_app, length_firstn, nth_error_firstn, nth_error_skipn.
  destruct (Nat.ltb_spec i k), (Nat.ltb_spec i (Nat.min k (List.length l)));
    try reflexivity; try lia;
    (destruct (Nat.le_gt_cases k (List.length l));
     [f_equal; lia
     |transitivity (@None A); [|symmetry]; apply nth_error_None; lia]).
Qed.

(** The elements around the one [splice] has just inserted. *)
Lemma nth_error_inserted_before (l : list A) (k : nat) (x : A) (i : nat) :
  (i < k <= List.length l)%nat ->
  nth_error (firstn k l ++ x :: skipn k l) i = nth_error l i.
Proof.
  intros H. rewrite nth_error_app1 by (rewrite length_firstn; lia).
  rewrite nth_error_firstn. destruct (Nat.ltb_spec i k); [reflexivity|lia].
Qed.

Lemma nth_error_inserted_after (l : list A) (k : nat) (x : A) :
  (k <= List.length l)%nat ->
  nth_error (firstn k l ++ x :: skipn k l) (S k) = nth_error l k.
Proof.
  intros H. rewrite nth_error_app2 by (rewrite length_firstn; lia).
  rewrite length_firstn.
  replace (S k - Nat.min k (List.length l))%nat with 1%nat by lia.
  change (nth_error (x :: skipn k l) 1) with (nth_error (skipn k l) 0).
  rewrite nth_error_skipn. f_equal. lia.
Qed.


End Arrays.

Section Ordering.

Lemma Qltb_lt (x y : Q) : Qltb x y = true <-> x < y.
Proof.
  unfold Qltb. rewrite negb_true_iff, <- not_true_iff_false, Qle_bool_iff.
  split; [apply Qnot_le_lt|apply Qlt_not_le].
Qed.



Lemma Qfloor_shift (x : Q) (z : Z) :
  Qfloor (x + inject_Z z) = (Qfloor x + z)%Z.
Proof.
  destruct x as [n d]. unfold Qfloor, Qplus, inject_Z; cbn.
  rewrite Z.mul_1_r, Pos.mul_1_r. apply Z.div_add. discriminate.
Qed.

Lemma ceil_succ (x : Q) : ceil (x + 1) == inject_Z (Qceiling x) + 1.
Proof.
  unfold ceil, Qceiling.
  assert (E : - (x + 1) == - x + inject_Z (-1)) by (cbn; ring).
  rewrite E, Qfloor_shift.
  replace (- (Qfloor (- x) + -1))%Z with (- Qfloor (- x) + 1)%Z by ring.
  now rewrite inject_Z_plus.
Qed.

Lemma floor_pred (x : Q) : floor (x - 1) == inject_Z (Qfloor x) - 1.
Proof.
  unfold floor.
  assert (E : x - 1 == x + inject_Z (-1)) by (cbn; ring).
  rewrite E, Qfloor_shift, inject_Z_plus. cbn. ring.
Qed.

Lemma ceil_above (x : Q) : x < ceil (x + 1).
Proof.
  pose proof (Qle_ceiling (x + 1)). unfold ceil. lra.
Qed.

Lemma floor_below (x : Q) : floor (x - 1) < x.
Proof.
  pose proof (Qfloor_le (x - 1)). unfold floor. lra.
Qed.

End Ordering.

(** ** The ordering: the statements of the specification *)

Section OrderingClaims.

Lemma changeCardPosition_neighbours
      (rows : list Entity) (fromIndex : Index) (j : Z) (card : Entity) :
  changeCardPosition rows fromIndex (Some j) card
  = (p <- cardPosition (fst (cardNeighbours rows fromIndex j card))
                       (snd (cardNeighbours rows fromIndex j card)) ;;
     Ok {| cardNewPosition := Some p;
           cardRows := spliceInsert (fst (removeMoved rows fromIndex)) j
                                    (Some (setPosition card p)) |}).
Proof.
  unfold changeCardPosition, cardNeighbours.
  destruct (removeMoved rows fromIndex) as [rest moved]; cbn [fst snd].
  destruct (neighbours (spliceInsert rest j (Some card)) (Some j))
    as [toPrev toNext]; cbn [fst snd].
  destruct (cardPosition toPrev toNext); reflexivity.
Qed.

Lemma changeListPosition_neighbours
      (rows : list Entity) (fromIndex toIndex : Index) :
  changeListPosition rows fromIndex toIndex
  = (p <- listPosition (fst (listNeighbours rows fromIndex toIndex))
                       (snd (listNeighbours rows fromIndex toIndex)) ;;
     _ <- titleOf (snd (removeMoved rows fromIndex)) ;;
     Ok {| listNewPosition := p;
           listRows :=
             insertAt (fst (removeMoved rows fromIndex)) toIndex
                      (option_map (fun e => setPosition e p)
                                  (snd (removeMoved rows fromIndex))) |}).
Proof.
  unfold changeListPosition, listNeighbours.
  destruct (removeMoved rows fromIndex) as [rest moved]; cbn [fst snd].
  destruct (neighbours (insertAt rest toIndex moved) toIndex)
    as [toPrev toNext]; reflexivity.
Qed.

(** The card computation cannot throw. *)
Lemma cardPosition_completes (toPrev toNext : Slot) :
  exists p, cardPosition toPrev toNext = Ok p.
Proof. destruct toPrev, toNext; cbn; eauto. Qed.

(** The list computation completes as soon as there is a neighbour. *)
Lemma listPosition_completes (toPrev toNext : Slot) :
  toPrev <> None \/ toNext <> None ->
  exists p, listPosition toPrev toNext = Ok p.
Proof. destruct toPrev, toNext; cbn; eauto. intros [H|H]; congruence. Qed.

(** Both computations agree wherever the one of the lists completes. *)
Lemma listPosition_cardPosition (toPrev toNext : Slot) (p : Q) :
  listPosition toPrev toNext = Ok p -> cardPosition toPrev toNext = Ok p.
Proof. destruct toPrev, toNext; cbn; congruence. Qed.

(** Without neighbours a card gets the position 1, and the list
    computation throws. *)
Lemma position_without_neighbours
      (rows : list Entity) (fromIndex : Index) (j : Z) (card : Entity) :
  (cardNeighbours rows fromIndex j card = (None, None) ->
   changeCardPosition rows fromIndex (Some j) card
   = Ok {| cardNewPosition := Some 1;
           cardRows := spliceInsert (fst (removeMoved rows fromIndex)) j
                                    (Some (setPosition card 1)) |}) /\
  (forall toIndex,
      listNeighbours rows fromIndex toIndex = (None, None) ->
      changeListPosition rows fromIndex toIndex = TypeError).
Proof.
  split.
  - intros H. now rewrite changeCardPosition_neighbours, H.
  - intros toIndex H. now rewrite changeListPosition_neighbours, H.
Qed.

(** C3, on the code: the only list of a board, dropped where it was, has
    no neighbour; the list computation throws where the card computation
    returns 1.  The same holds for an entity that arrives in an empty
    container. *)
Theorem sole_list_move_throws :
  listNeighbours [rowA] (Some 0%Z) (Some 0%Z) = (None, None) /\
  changeListPosition [rowA] (Some 0%Z) (Some 0%Z) = TypeError /\
  changeCardPosition [rowA] (Some 0%Z) (Some 0%Z) rowA
  = Ok {| cardNewPosition := Some 1;
          cardRows := [Some (setPosition rowA 1)] |} /\
  changeListPosition [] None (Some 0%Z) = TypeError /\
  changeCardPosition [] None (Some 0%Z) rowA
  = Ok {| cardNewPosition := Some 1;
          cardRows := [Some (setPosition rowA 1)] |}.
Proof. repeat split. Qed.

(** C4, as stated, fails: a card move with a [null] target completes (it
    stores the rows without the card), and so does a list move with a
    [null] target among three lists. *)
Lemma null_target_completes :
  changeCardPosition [rowA; rowB] (Some 0%Z) None rowA
  = Ok {| cardNewPosition := None; cardRows := [Some rowB] |} /\
  throws (changeCardPosition [rowA; rowB] (Some 0%Z) None rowA) = false /\
  throws (changeListPosition [rowA; rowB; rowD] (Some 1%Z) None) = false.
Proof. repeat split. Qed.

(** C4, amended: a card move never signals an error.  With a [null]
    target it computes no position and stores the rows without the moved
    card; with any other target, an empty sibling sequence and a target
    out of range included, it computes a position.  A list move completes
    whenever the moved list exists and the target slot has a neighbour, a
    [null] target included. *)
Theorem card_moves_complete
        (rows : list Entity) (fromIndex toIndex : Index) (card : Entity) :
  (exists m,
      changeCardPosition rows fromIndex toIndex card = Ok m /\
      (cardNewPosition m = None <-> toIndex = None)) /\
  changeCardPosition rows fromIndex None card
  = Ok {| cardNewPosition := None;
          cardRows := fst (removeMoved rows fromIndex) |} /\
  (snd (removeMoved rows fromIndex) <> None ->
   fst (listNeighbours rows fromIndex toIndex) <> None
   \/ snd (listNeighbours rows fromIndex toIndex) <> None ->
   throws (changeListPosition rows fromIndex toIndex) = false).
Proof.
  split; [|split].
  - destruct toIndex as [j|].
    + rewrite changeCardPosition_neighbours.
      destruct (cardPosition_completes
                  (fst (cardNeighbours rows fromIndex j card))
                  (snd (cardNeighbours rows fromIndex j card))) as [p Hp].
      rewrite Hp; cbn. eexists; split; [reflexivity|].
      cbn; split; discriminate.
    + unfold changeCardPosition.
      destruct (removeMoved rows fromIndex) as [rest moved].
      eexists; split; [reflexivity|]. cbn; split; reflexivity.
  - unfold changeCardPosition.
    now destruct (removeMoved rows fromIndex) as [rest moved].
  - intros Hmoved Hsome. rewrite changeListPosition_neighbours.
    destruct (listPosition_completes _ _ Hsome) as [p Hp].
    rewrite Hp; cbn [bind].
    destruct (snd (removeMoved rows fromIndex)) as [e|]; [|congruence].
    reflexivity.
Qed.

Lemma card_moves_complete_witness :
  snd (removeMoved [rowA; rowB; rowD] (Some 1%Z)) <> None /\
  (fst (listNeighbours [rowA; rowB; rowD] (Some 1%Z) None) <> None
   \/ snd (listNeighbours [rowA; rowB; rowD] (Some 1%Z) None) <> None) /\
  throws (changeListPosition [rowA; rowB; rowD] (Some 1%Z) None) = false.
Proof.
  assert (Hmoved : snd (removeMoved [rowA; rowB; rowD] (Some 1%Z)) <> None)
    by (vm_compute; discriminate).
  assert (Hsome :
            fst (listNeighbours [rowA; rowB; rowD] (Some 1%Z) None) <> None
            \/ snd (listNeighbours [rowA; rowB; rowD] (Some 1%Z) None) <> None)
    by (right; vm_compute; discriminate).
  split; [exact Hmoved|split; [exact Hsome|]].
  exact (proj2 (proj2 (card_moves_complete
                         [rowA; rowB; rowD] (Some 1%Z) None rowB))
               Hmoved Hsome).
Defined.

Lemma skipn_nth_error {A : Type} (l : list A) (k : nat) (x : A) :
  nth_error l k = Some x -> skipn k l = x :: skipn (S k) l.
Proof.
  revert l. induction k as [|k IH]; intros [|y l] H; try discriminate.
  - now inversion H.
  - cbn in H. apply IH in H. exact H.
Qed.





(** The three ordering scenarios of the specification. *)
Example scenario_between :
  changeCardPosition [rowA; rowB; rowC] (Some 2%Z) (Some 1%Z) rowC
  = Ok {| cardNewPosition := Some (3 # 2);
          cardRows := [Some rowA; Some (setPosition rowC (3 # 2)); Some rowB] |} /\
  changeListPosition [rowA; rowB; rowC] (Some 2%Z) (Some 1%Z)
  = Ok {| listNewPosition := 3 # 2;
          listRows := [Some rowA; Some (setPosition rowC (3 # 2)); Some rowB] |}.
Proof. split; reflexivity. Qed.

Example scenario_empty :
  changeCardPosition [] None (Some 0%Z) rowC
  = Ok {| cardNewPosition := Some 1;
          cardRows := [Some (setPosition rowC 1)] |}.
Proof. reflexivity. Qed.

Example scenario_tail :
  changeCardPosition [mkEntity "A" "a" 5] None (Some 1%Z) rowC
  = Ok {| cardNewPosition := Some 6;
          cardRows := [Some (mkEntity "A" "a" 5); Some (setPosition rowC 6)] |}.
Proof. reflexivity. Qed.

End OrderingClaims.

(** ** The mutations: auxiliary facts *)

Section MutationFacts.

Lemma assign_source (target source : Entity) : assign target source = source.
Proof. now destruct source. Qed.

Lemma find_none (rows : list Entity) (ident : string) :
  find rows ident = None <-> ~ In ident (map id rows).
Proof.
  induction rows as [|r rows IH]; cbn; [tauto|].
  destruct (String.eqb_spec (id r) ident) as [E|E].
  - split; [discriminate|]. intros H. exfalso. auto.
  - rewrite IH. tauto.
Qed.

(** The row [find] returns is the first one with the id. *)
Lemma find_some (rows : list Entity) (ident : string) (r : Entity) :
  find rows ident = Some r <->
  exists pre post,
    rows = (pre ++ r :: post)%list /\ id r = ident /\ find pre ident = None.
Proof.
  split.
  - revert r. induction rows as [|r0 rows IH]; cbn; intros r H; [discriminate|].
    destruct (String.eqb_spec (id r0) ident) as [E|E].
    + inversion H; subst. exists [], rows. auto.
    + destruct (IH r H) as (pre & post & -> & Hid & Hpre).
      exists (r0 :: pre), post. cbn.
      destruct (String.eqb_spec (id r0) ident); [contradiction|auto].
  - intros (pre & post & -> & Hid & Hpre).
    induction pre as [|r0 pre IH]; cbn in *.
    + subst ident. now rewrite String.eqb_refl.
    + destruct (String.eqb_spec (id r0) ident); [discriminate|auto].
Qed.

Lemma find_app (pre post : list Entity) (ident : string) :
  find (pre ++ post) ident
  = match find pre ident with
    | Some r => Some r
    | None => find post ident
    end.
Proof.
  induction pre as [|r pre IH]; cbn; [reflexivity|].
  now destruct (id r =? ident)%string.
Qed.

Lemma findIndex_none (rows : list Entity) (ident : string) :
  find rows ident = None -> findIndex rows ident = (-1)%Z.
Proof.
  induction rows as [|r rows IH]; cbn; [reflexivity|].
  destruct (id r =? ident)%string; [discriminate|].
  intros H. now rewrite (IH H).
Qed.

Lemma findIndex_first (pre post : list Entity) (r : Entity) :
  find pre (id r) = None ->
  findIndex (pre ++ r :: post) (id r) = Z.of_nat (List.length pre).
Proof.
  induction pre as [|r0 pre IH]; cbn [app findIndex find List.length].
  - now rewrite String.eqb_refl.
  - destruct (id r0 =? id r)%string; [discriminate|]. intros H.
    rewrite (IH H). destruct (Z.ltb_spec (Z.of_nat (List.length pre)) 0); lia.
Qed.

Lemma assignFound_first (pre post : list Entity) (r source : Entity) :
  find pre (id source) = None -> id r = id source ->
  assignFound (pre ++ r :: post) source = (pre ++ source :: post)%list.
Proof.
  intros Hpre Hid. induction pre as [|r0 pre IH]; cbn in *.
  - rewrite Hid, String.eqb_refl. now rewrite assign_source.
  - destruct (id r0 =? id source)%string; [discriminate|].
    now rewrite (IH Hpre).
Qed.

Lemma delete_middle {A : Type} (pre post : list A) (x : A) :
  fst (spliceDelete1 (pre ++ x :: post) (Z.of_nat (List.length pre)))
  = (pre ++ post)%list.
Proof.
  unfold spliceDelete1; cbn [fst].
  rewrite relativeStart_index, Nat2Z.id by (rewrite length_app; cbn; lia).
  rewrite firstn_app, Nat.sub_diag, firstn_all, app_nil_r; cbn [firstn].
  change (S (List.length pre)) with (1 + List.length pre)%nat.
  rewrite <- skipn_skipn, skipn_app, Nat.sub_diag, skipn_all; cbn.
  reflexivity.
Qed.

Lemma filter_fresh (rows : list Entity) (ident : string) :
  find rows ident = None ->
  filter (fun b => negb (id b =? ident)%string) rows = rows.
Proof.
  induction rows as [|r rows IH]; cbn; [reflexivity|].
  destruct (id r =? ident)%string; [discriminate|]. cbn.
  intros H. now rewrite (IH H).
Qed.

Lemma REMOVE_CARD_split (pre post : list Entity) (r : Entity) :
  find pre (id r) = None ->
  REMOVE_CARD (pre ++ r :: post) (id r) = (pre ++ post)%list.
Proof.
  intros Hpre. unfold REMOVE_CARD.
  rewrite (findIndex_first pre post r Hpre).
  destruct (Z.leb_spec 0 (Z.of_nat (List.length pre))); [|lia].
  apply delete_middle.
Qed.

Lemma REMOVE_CARD_absent (rows : list Entity) (ident : string) :
  find rows ident = None -> REMOVE_CARD rows ident = rows.
Proof.
  intros H. unfold REMOVE_CARD. now rewrite (findIndex_none rows ident H).
Qed.

End MutationFacts.

(** ** The mutations: what they keep and what they throw *)

Section MutationProperties.

(** X1: [UPDATE_CARD] is an upsert.  Afterwards the first row with the
    card's id is the card; the rows with other ids are found as before; the
    number of rows grows by one exactly when no row had the id. *)
Theorem UPDATE_CARD_upsert (rows : list Entity) (card : Entity) :
  find (UPDATE_CARD rows card) (id card) = Some card /\
  (forall ident,
      ident <> id card ->
      find (UPDATE_CARD rows card) ident = find rows ident) /\
  List.length (UPDATE_CARD rows card)
  = match find rows (id card) with
    | Some _ => List.length rows
    | None => S (List.length rows)
    end.
Proof.
  unfold UPDATE_CARD. destruct (find rows (id card)) as [found|] eqn:E.
  - apply find_some in E as (pre & post & -> & Hid & Hpre).
    rewrite (assignFound_first pre post found card Hpre Hid).
    repeat split.
    + rewrite find_app, Hpre. cbn. now rewrite String.eqb_refl.
    + intros ident Hne. rewrite !find_app. destruct (find pre ident); auto.
      cbn. rewrite Hid.
      destruct (String.eqb_spec (id card) ident); [congruence|reflexivity].
    + rewrite !length_app. reflexivity.
  - repeat split.
    + rewrite find_app, E. cbn. now rewrite String.eqb_refl.
    + intros ident Hne. rewrite find_app. destruct (find rows ident); auto.
      cbn. destruct (String.eqb_spec (id card) ident); [congruence|reflexivity].
    + rewrite length_app. cbn. lia.
Qed.

(** X2: [UPDATE_CARD] keeps the ids of the rows and their order, adding the
    card's id at the end when it is new; rows with pairwise distinct ids
    stay so. *)
Theorem UPDATE_CARD_ids (rows : list Entity) (card : Entity) :
  map id (UPDATE_CARD rows card)
  = match find rows (id card) with
    | Some _ => map id rows
    | None => (map id rows ++ [id card])%list
    end /\
  (NoDup (map id rows) -> NoDup (map id (UPDATE_CARD rows card))).
Proof.
  assert (Hids : map id (UPDATE_CARD rows card)
                 = match find rows (id card) with
                   | Some _ => map id rows
                   | None => (map id rows ++ [id card])%list
                   end).
  { unfold UPDATE_CARD. destruct (find rows (id card)) as [found|] eqn:E.
    - apply find_some in E as (pre & post & -> & Hid & Hpre).
      rewrite (assignFound_first pre post found card Hpre Hid).
      rewrite !map_app. cbn. now rewrite Hid.
    - now rewrite map_app. }
  split; [exact Hids|]. intros Hnd. rewrite Hids.
  destruct (find rows (id card)) eqn:E; [exact Hnd|].
  apply find_none in E.
  apply NoDup_app; [exact Hnd|repeat constructor; intros []|].
  intros ident Hin [<-|[]]. contradiction.
Qed.

Lemma UPDATE_CARD_ids_witness :
  NoDup (map id [rowA; rowB]) /\
  NoDup (map id (UPDATE_CARD [rowA; rowB] (mkEntity "B" "bee" 7))).
Proof.
  assert (H : NoDup (map id [rowA; rowB])).
  { repeat constructor; cbn; intuition discriminate. }
  split; [exact H|].
  exact (proj2 (UPDATE_CARD_ids [rowA; rowB] (mkEntity "B" "bee" 7)) H).
Defined.

(** X3: [REMOVE_CARD] leaves the rows alone when no row has the id, and
    otherwise takes out the first row with the id and no other.  On rows
    with pairwise distinct ids it removes what [REMOVE_LIST] removes, and no
    row with the id is left. *)
Theorem REMOVE_CARD_first (rows : list Entity) (ident : string) :
  (find rows ident = None -> REMOVE_CARD rows ident = rows) /\
  (forall pre r post,
      rows = (pre ++ r :: post)%list -> id r = ident ->
      find pre ident = None ->
      REMOVE_CARD rows ident = (pre ++ post)%list) /\
  (NoDup (map id rows) ->
   REMOVE_CARD rows ident = REMOVE_LIST rows ident /\
   find (REMOVE_CARD rows ident) ident = None).
Proof.
  assert (Hfirst : forall pre r post,
             rows = (pre ++ r :: post)%list -> id r = ident ->
             find pre ident = None ->
             REMOVE_CARD rows ident = (pre ++ post)%list).
  { intros pre r post -> <- Hpre. now apply REMOVE_CARD_split. }
  assert (Hnone : find rows ident = None -> REMOVE_CARD rows ident = rows)
    by apply REMOVE_CARD_absent.
  split; [exact Hnone|split; [exact Hfirst|]].
  intros Hnd. destruct (find rows ident) as [r|] eqn:E.
  - apply find_some in E as (pre & post & Hrows & Hid & Hpre).
    rewrite (Hfirst pre r post Hrows Hid Hpre). subst rows.
    assert (Hpost : find post ident = None).
    { apply find_none. intros Hin. rewrite map_app in Hnd. cbn in Hnd.
      apply NoDup_remove_2 in Hnd. apply Hnd. apply in_or_app. right.
      now rewrite Hid. }
    split.
    + unfold REMOVE_LIST. rewrite filter_app. cbn.
      rewrite Hid, String.eqb_refl. cbn.
      now rewrite (filter_fresh pre ident Hpre), (filter_fresh post ident Hpost).
    + now rewrite find_app, Hpre.
  - rewrite (Hnone eq_refl). split; [|exact E].
    unfold REMOVE_LIST. now rewrite (filter_fresh rows ident E).
Qed.

Lemma REMOVE_CARD_first_witness :
  NoDup (map id [rowA; rowB; rowC]) /\
  REMOVE_CARD [rowA; rowB; rowC] "B" = REMOVE_LIST [rowA; rowB; rowC] "B" /\
  find (REMOVE_CARD [rowA; rowB; rowC] "B") "B" = None.
Proof.
  assert (H : NoDup (map id [rowA; rowB; rowC])).
  { repeat constructor; cbn; intuition discriminate. }
  split; [exact H|].
  exact (proj2 (proj2 (REMOVE_CARD_first [rowA; rowB; rowC] "B")) H).
Defined.

(** X4: adding a row with a new id and removing that id gives back the
    rows, for cards and for lists. *)
Theorem add_then_remove (rows : list Entity) (row : Entity) :
  find rows (id row) = None ->
  REMOVE_CARD (ADD_CARD rows row) (id row) = rows /\
  REMOVE_LIST (ADD_LIST rows row) (id row) = rows.
Proof.
  intros Hfresh. split.
  - unfold ADD_CARD.
    rewrite (REMOVE_CARD_split rows [] row Hfresh). apply app_nil_r.
  - unfold ADD_LIST, REMOVE_LIST. rewrite filter_app. cbn.
    rewrite String.eqb_refl. cbn.
    now rewrite (filter_fresh rows (id row) Hfresh), app_nil_r.
Qed.

Lemma add_then_remove_witness :
  find [rowA; rowB] (id rowC) = None /\
  REMOVE_CARD (ADD_CARD [rowA; rowB] rowC) (id rowC) = [rowA; rowB] /\
  REMOVE_LIST (ADD_LIST [rowA; rowB] rowC) (id rowC) = [rowA; rowB].
Proof.
  split; [reflexivity|].
  exact (add_then_remove [rowA; rowB] rowC eq_refl).
Defined.

(** X5: [UPDATE_LIST] throws a [ReferenceError] exactly when a row with the
    list's id is there, so it never changes a row; otherwise it appends the
    list. *)
Theorem UPDATE_LIST_existing_throws (rows : list Entity) (lst : Entity) :
  (In (id lst) (map id rows)
   <-> UPDATE_LIST rows lst = Thrown ReferenceErrorExn) /\
  (~ In (id lst) (map id rows)
   <-> UPDATE_LIST rows lst = Done (rows ++ [lst])%list).
Proof.
  unfold UPDATE_LIST. destruct (find rows (id lst)) as [found|] eqn:E.
  - assert (Hin : In (id lst) (map id rows)).
    { apply find_some in E as (pre & post & -> & Hid & _).
      rewrite map_app. apply in_or_app. right. left. exact Hid. }
    split; split; auto; try discriminate. intros Hn. contradiction.
  - apply find_none in E.
    split; split; auto; try discriminate. intros Hin. contradiction.
Qed.

End MutationProperties.

(** ** Moves and mutations together *)

Section Moves.

Lemma removeMoved_siblings (rows : list Entity) (fromIndex : Index) :
  fst (removeMoved rows fromIndex) = map Some (siblingsOf rows fromIndex).
Proof.
  destruct fromIndex as [i|]; unfold removeMoved, siblingsOf, spliceDelete1;
    cbn [fst]; [|reflexivity].
  now rewrite length_map, map_app, firstn_map, skipn_map.
Qed.

Lemma spliceInsert_rows (rows : list Entity) (j : Z) (row : Entity) :
  spliceInsert (map Some rows) j (Some row)
  = map Some (spliceInsert rows j row).
Proof.
  unfold spliceInsert.
  now rewrite length_map, map_app, firstn_map; cbn; rewrite skipn_map.
Qed.

Lemma find_firstn (rows : list Entity) (k : nat) (ident : string) :
  find rows ident = None -> find (firstn k rows) ident = None.
Proof.
  intros H. rewrite <- (firstn_skipn k rows), find_app in H.
  now destruct (find (firstn k rows) ident).
Qed.

(** A successful card move, in terms of the siblings. *)
Lemma changeCardPosition_siblings
      (rows : list Entity) (fromIndex : Index) (j : Z) (card : Entity) :
  exists p,
    cardPosition (fst (cardNeighbours rows fromIndex j card))
                 (snd (cardNeighbours rows fromIndex j card)) = Ok p /\
    changeCardPosition rows fromIndex (Some j) card
    = Ok {| cardNewPosition := Some p;
            cardRows := map Some (spliceInsert (siblingsOf rows fromIndex) j
                                               (setPosition card p)) |}.
Proof.
  destruct (cardPosition_completes
              (fst (cardNeighbours rows fromIndex j card))
              (snd (cardNeighbours rows fromIndex j card))) as [p Hp].
  exists p. split; [exact Hp|].
  rewrite changeCardPosition_neighbours, Hp; cbn [bind].
  now rewrite removeMoved_siblings, spliceInsert_rows.
Qed.

(** X6: once a list move to a target has completed, the answer of the
    server for the moved list cannot be stored: the moved list is among the
    committed rows, so [UPDATE_LIST] throws its [ReferenceError]. *)
Theorem UPDATE_LIST_after_move
        (rows : list Entity) (fromIndex : Index) (j : Z) (m : ListMove) :
  changeListPosition rows fromIndex (Some j) = Ok m ->
  exists moved committed,
    snd (removeMoved rows fromIndex) = Some moved /\
    listRows m = map Some committed /\
    forall answer,
      id answer = id moved ->
      UPDATE_LIST committed answer = Thrown ReferenceErrorExn.
Proof.
  rewrite changeListPosition_neighbours. intros H.
  destruct (listPosition (fst (listNeighbours rows fromIndex (Some j)))
                         (snd (listNeighbours rows fromIndex (Some j))))
    as [p|]; cbn [bind] in H; [|discriminate].
  destruct (snd (removeMoved rows fromIndex)) as [moved|];
    cbn [titleOf bind option_map insertAt] in H; [|discriminate].
  inversion H; subst m; clear H. cbn [listRows].
  exists moved, (spliceInsert (siblingsOf rows fromIndex) j (setPosition moved p)).
  split; [reflexivity|split].
  - now rewrite removeMoved_siblings, spliceInsert_rows.
  - intros answer Hid. unfold UPDATE_LIST, spliceInsert.
    rewrite find_app. cbn [find setPosition id]. rewrite Hid, String.eqb_refl.
    now destruct (find _ (id moved)).
Qed.

Lemma UPDATE_LIST_after_move_witness :
  changeListPosition [rowA; rowB; rowC] (Some 2%Z) (Some 1%Z)
  = Ok {| listNewPosition := 3 # 2;
          listRows := [Some rowA; Some (setPosition rowC (3 # 2)); Some rowB] |} /\
  exists moved committed,
    snd (removeMoved [rowA; rowB; rowC] (Some 2%Z)) = Some moved /\
    [Some rowA; Some (setPosition rowC (3 # 2)); Some rowB] = map Some committed /\
    forall answer,
      id answer = id moved ->
      UPDATE_LIST committed answer = Thrown ReferenceErrorExn.
Proof.
  split; [reflexivity|].
  exact (UPDATE_LIST_after_move [rowA; rowB; rowC] (Some 2%Z) 1 _ eq_refl).
Defined.

(** X7: when no sibling has the id of the moved card, the answer of the
    server for that card takes, through [UPDATE_CARD], the place the move
    gave the card: no row is added and no other row changes. *)
Theorem UPDATE_CARD_after_move
        (rows : list Entity) (fromIndex : Index) (j : Z) (card : Entity) :
  find (siblingsOf rows fromIndex) (id card) = None ->
  exists p,
    changeCardPosition rows fromIndex (Some j) card
    = Ok {| cardNewPosition := Some p;
            cardRows := map Some (spliceInsert (siblingsOf rows fromIndex) j
                                               (setPosition card p)) |} /\
    forall answer,
      id answer = id card ->
      UPDATE_CARD (spliceInsert (siblingsOf rows fromIndex) j
                                (setPosition card p)) answer
      = spliceInsert (siblingsOf rows fromIndex) j answer.
Proof.
  intros Hfresh.
  destruct (changeCardPosition_siblings rows fromIndex j card) as (p & _ & Hmove).
  exists p. split; [exact Hmove|]. intros answer Hid.
  unfold UPDATE_CARD, spliceInsert.
  set (sib := siblingsOf rows fromIndex) in *.
  set (k := relativeStart (List.length sib) j).
  assert (Hpre : find (firstn k sib) (id answer) = None)
    by (rewrite Hid; now apply find_firstn).
  rewrite find_app, Hpre. cbn [find setPosition id].
  rewrite Hid, String.eqb_refl.
  apply assignFound_first; [exact Hpre|]. cbn. now rewrite Hid.
Qed.

Lemma UPDATE_CARD_after_move_witness :
  find (siblingsOf [rowA; rowB; rowC] (Some 2%Z)) (id rowC) = None /\
  exists p,
    changeCardPosition [rowA; rowB; rowC] (Some 2%Z) (Some 1%Z) rowC
    = Ok {| cardNewPosition := Some p;
            cardRows := [Some rowA; Some (setPosition rowC p); Some rowB] |} /\
    forall answer,
      id answer = id rowC ->
      UPDATE_CARD [rowA; setPosition rowC p; rowB] answer
      = [rowA; answer; rowB].
Proof.
  split; [reflexivity|].
  exact (UPDATE_CARD_after_move [rowA; rowB; rowC] (Some 2%Z) 1 rowC eq_refl).
Defined.

Lemma nth_error_inserted {A : Type} (l : list A) (k : nat) (x : A) (i : nat) :
  (k <= List.length l)%nat ->
  nth_error (firstn k l ++ x :: skipn k l) i
  = if (i <? k)%nat then nth_error l i
    else if (i =? k)%nat then Some x else nth_error l (i - 1).
Proof.
  intros Hk. destruct (Nat.ltb_spec i k).
  - now apply nth_error_inserted_before.
  - rewrite nth_error_app2 by (rewrite length_firstn; lia).
    rewrite length_firstn, Nat.min_l by exact Hk.
    destruct (Nat.eqb_spec i k) as [->|Hne].
    + now rewrite Nat.sub_diag.
    + destruct (i - k)%nat as [|d] eqn:E; [lia|].
      change (nth_error (x :: skipn k l) (S d)) with (nth_error (skipn k l) d).
      rewrite nth_error_skipn. f_equal. lia.
Qed.

(** X9: a list move that completes is the card move of the moved list: the
    same position and the same rows. *)
Theorem list_move_is_card_move
        (rows : list Entity) (fromIndex : Index) (j : Z) (m : ListMove) :
  changeListPosition rows fromIndex (Some j) = Ok m ->
  exists moved,
    snd (removeMoved rows fromIndex) = Some moved /\
    changeCardPosition rows fromIndex (Some j) moved
    = Ok {| cardNewPosition := Some (listNewPosition m);
            cardRows := listRows m |}.
Proof.
  rewrite changeListPosition_neighbours. intros H.
  destruct (listPosition (fst (listNeighbours rows fromIndex (Some j)))
                         (snd (listNeighbours rows fromIndex (Some j))))
    as [p|] eqn:Hp; cbn [bind] in H; [|discriminate].
  destruct (snd (removeMoved rows fromIndex)) as [moved|] eqn:Hmoved;
    cbn [titleOf bind option_map insertAt] in H; [|discriminate].
  inversion H; subst m; clear H. cbn [listNewPosition listRows].
  exists moved. split; [reflexivity|].
  assert (Hnb : cardNeighbours rows fromIndex j moved
                = listNeighbours rows fromIndex (Some j)).
  { unfold cardNeighbours, listNeighbours.
    destruct (removeMoved rows fromIndex) as [rest mv]; cbn [fst snd] in *.
    now subst mv. }
  rewrite changeCardPosition_neighbours, Hnb.
  now rewrite (listPosition_cardPosition _ _ p Hp).
Qed.

Lemma list_move_is_card_move_witness :
  changeListPosition [rowA; rowB; rowC] (Some 2%Z) (Some 1%Z)
  = Ok {| listNewPosition := 3 # 2;
          listRows := [Some rowA; Some (setPosition rowC (3 # 2)); Some rowB] |} /\
  exists moved,
    snd (removeMoved [rowA; rowB; rowC] (Some 2%Z)) = Some moved /\
    changeCardPosition [rowA; rowB; rowC] (Some 2%Z) (Some 1%Z) moved
    = Ok {| cardNewPosition := Some (3 # 2);
            cardRows := [Some rowA; Some (setPosition rowC (3 # 2)); Some rowB] |}.
Proof.
  split; [reflexivity|].
  exact (list_move_is_card_move [rowA; rowB; rowC] (Some 2%Z) 1 _ eq_refl).
Defined.







End Moves.

(** ** The ordering on binary64 positions: auxiliary facts *)

Section DoubleNumbers.

Import Doubles.

Lemma isNumber_iff (x : double) (q : Q) :
  isNumber x q = true <-> exists v, valueOf x = Some v /\ v == q.
Proof.
  unfold isNumber. destruct (valueOf x) as [v|].
  - rewrite Qeq_bool_iff. split.
    + intros H. exists v. auto.
    + intros (w & Hw & E). now inversion Hw; subst.
  - split; [discriminate|]. intros (w & Hw & _). discriminate.
Qed.

Lemma below_iff (x y : double) :
  below x y = true
  <-> exists a b, valueOf x = Some a /\ valueOf y = Some b /\ a < b.
Proof.
  unfold below. destruct (valueOf x) as [a|], (valueOf y) as [b|].
  - rewrite Qltb_lt. split.
    + intros H. exists a, b. auto.
    + intros (a' & b' & Ha & Hb & H). now inversion Ha; inversion Hb; subst.
  - split; [discriminate|]. intros (a' & b' & _ & Hb & _). discriminate.
  - split; [discriminate|]. intros (a' & b' & Ha & _). discriminate.
  - split; [discriminate|]. intros (a' & b' & Ha & _). discriminate.
Qed.

(** A mantissa filled up by [k] binary digits, at the exponent [-k]. *)
Lemma scaled_filled (s : bool) (p k : positive) :
  scaled (cond_Zopp s (Zpos (shift_pos k p))) (Zneg k)
  == inject_Z (cond_Zopp s (Zpos p)).
Proof.
  unfold scaled, Qeq, inject_Z. cbn [Qnum Qden].
  rewrite !shift_pos_correct. destruct s; cbn [cond_Zopp]; lia.
Qed.

Lemma integral_isNumber (s : bool) (p : positive) :
  isNumber (integral s p) (inject_Z (cond_Zopp s (Zpos p))) = true.
Proof.
  apply isNumber_iff. unfold integral.
  destruct (prec - Zpos (digits2_pos p))%Z as [|k|k]; cbn [valueOf].
  - eexists. split; [reflexivity|]. reflexivity.
  - eexists. split; [reflexivity|]. apply scaled_filled.
  - eexists. split; [reflexivity|]. reflexivity.
Qed.

Lemma ofInteger_isNumber (s : bool) (z : Z) :
  isNumber (ofInteger s z) (inject_Z z) = true.
Proof.
  destruct z as [|p|p]; cbn [ofInteger].
  - reflexivity.
  - apply (integral_isNumber false).
  - apply (integral_isNumber true).
Qed.

Lemma scaled_integer (n e : Z) :
  (0 <= e)%Z -> exists z, scaled n e = inject_Z z.
Proof.
  destruct e as [|k|k]; cbn [scaled]; intros H; eauto. lia.
Qed.

(** [Math.ceil] and [Math.floor] are exact. *)
Lemma ceil_isNumber (x : double) (v : Q) :
  valueOf x = Some v -> isNumber (ceil x) (inject_Z (Qceiling v)) = true.
Proof.
  destruct x as [s|s| |s m e]; cbn [valueOf ceil]; intros H;
    try discriminate; inversion H; subst v; clear H.
  - reflexivity.
  - destruct (Z.ltb_spec e 0).
    + apply ofInteger_isNumber.
    + destruct (scaled_integer (cond_Zopp s (Zpos m)) e) as [z Hz]; [lia|].
      apply isNumber_iff. cbn [valueOf]. eexists. split; [reflexivity|].
      rewrite Hz, Qceiling_Z. reflexivity.
Qed.

Lemma floor_isNumber (x : double) (v : Q) :
  valueOf x = Some v -> isNumber (floor x) (inject_Z (Qfloor v)) = true.
Proof.
  destruct x as [s|s| |s m e]; cbn [valueOf floor]; intros H;
    try discriminate; inversion H; subst v; clear H.
  - reflexivity.
  - destruct (Z.ltb_spec e 0).
    + apply ofInteger_isNumber.
    + destruct (scaled_integer (cond_Zopp s (Zpos m)) e) as [z Hz]; [lia|].
      apply isNumber_iff. cbn [valueOf]. eexists. split; [reflexivity|].
      rewrite Hz, Qfloor_Z. reflexivity.
Qed.

Lemma valueOf_one : valueOf one = Some (4503599627370496 # 4503599627370496).
Proof. reflexivity. Qed.

(** The position of a tail insert whose sum is exact. *)
Lemma ceil_exactSum (x : double) (q : Q) :
  valueOf x = Some q -> exactSum x one = true ->
  isNumber (ceil (add x one)) (inject_Z (Qceiling q) + 1) = true /\
  below x (ceil (add x one)) = true.
Proof.
  intros Hx Hsum. unfold exactSum in Hsum. rewrite Hx, valueOf_one in Hsum.
  apply isNumber_iff in Hsum as (s & Hs & Es).
  pose proof (ceil_isNumber _ _ Hs) as Hc.
  apply isNumber_iff in Hc as (c & Hc & Ec).
  assert (Es' : s == q + 1) by (rewrite Es; unfold Qeq; cbn; lia).
  rewrite (Qceiling_comp _ _ Es') in Ec.
  pose proof (ceil_succ q) as Hsucc. unfold Store.ceil in Hsucc.
  split.
  - apply isNumber_iff. exists c. split; [exact Hc|]. now rewrite Ec.
  - apply below_iff. exists q, c. repeat split; auto.
    rewrite Ec. pose proof (ceil_above q). unfold Store.ceil in *. lra.
Qed.

Lemma floor_exactDifference (x : double) (q : Q) :
  valueOf x = Some q -> exactDifference x one = true ->
  isNumber (floor (sub x one)) (inject_Z (Qfloor q) - 1) = true /\
  below (floor (sub x one)) x = true.
Proof.
  intros Hx Hsum. unfold exactDifference in Hsum.
  rewrite Hx, valueOf_one in Hsum.
  apply isNumber_iff in Hsum as (s & Hs & Es).
  pose proof (floor_isNumber _ _ Hs) as Hc.
  apply isNumber_iff in Hc as (c & Hc & Ec).
  assert (Es' : s == q - 1) by (rewrite Es; unfold Qeq; cbn; lia).
  rewrite (Qfloor_comp _ _ Es') in Ec.
  pose proof (floor_pred q) as Hpred. unfold Store.floor in Hpred.
  split.
  - apply isNumber_iff. exists c. split; [exact Hc|]. now rewrite Ec.
  - apply below_iff. exists c, q. repeat split; auto.
    rewrite Ec. pose proof (floor_below q). unfold Store.floor in *. lra.
Qed.

Lemma mean_exactMean (x y : double) :
  below x y = true -> exactMean x y = true ->
  below x (div (add y x) two) = true /\ below (div (add y x) two) y = true.
Proof.
  intros Hlt Hmean. apply below_iff in Hlt as (a & b & Ha & Hb & Hab).
  unfold exactMean in Hmean. rewrite Ha, Hb in Hmean.
  apply isNumber_iff in Hmean as (m & Hm & Em).
  split; apply below_iff.
  - exists a, m. repeat split; auto. rewrite Em.
    apply Qlt_shift_div_l; lra.
  - exists m, b. repeat split; auto. rewrite Em.
    apply Qlt_shift_div_r; lra.
Qed.

End DoubleNumbers.

(** ** The moves on binary64 positions: the slots *)

Section DoubleMoves.

Import Doubles.

Lemma double_get_rows (rows : list Entity) (i : Z) :
  get (map Some rows) i
  = if (i <? 0)%Z then None else nth_error rows (Z.to_nat i).
Proof.
  unfold get. destruct (i <? 0)%Z; [reflexivity|].
  rewrite nth_error_map. now destruct (nth_error rows (Z.to_nat i)).
Qed.

Lemma double_removeMoved_siblings (rows : list Entity) (fromIndex : Index) :
  fst (removeMoved rows fromIndex) = map Some (siblingsOf rows fromIndex).
Proof.
  destruct fromIndex as [i|]; unfold removeMoved, siblingsOf, spliceDelete1;
    cbn [fst]; [|reflexivity].
  now rewrite length_map, map_app, firstn_map, skipn_map.
Qed.

Lemma double_removeMoved_at (rows : list Entity) (i : Z) (moved : Entity) :
  (0 <= i)%Z -> nth_error rows (Z.to_nat i) = Some moved ->
  snd (removeMoved rows (Some i)) = Some moved.
Proof.
  intros Hi Hmoved.
  assert (Hlen : (Z.to_nat i < List.length rows)%nat)
    by (apply nth_error_Some; congruence).
  unfold removeMoved, spliceDelete1; cbn [snd].
  rewrite length_map, relativeStart_index by lia.
  now rewrite skipn_map, (skipn_nth_error rows _ moved Hmoved).
Qed.

Lemma double_neighbours_inserted (rest : list Slot) (j : Z) (slot : Slot) :
  (0 <= j <= Z.of_nat (List.length rest))%Z ->
  neighbours (spliceInsert rest j slot) (Some j)
  = (get rest (j - 1), get rest j).
Proof.
  intros Hj. unfold neighbours, spliceInsert, toNumber.
  rewrite (relativeStart_index _ _ Hj). f_equal; unfold get.
  - destruct (Z.ltb_spec (j - 1) 0); [reflexivity|].
    rewrite nth_error_inserted_before by lia. reflexivity.
  - destruct (Z.ltb_spec (j + 1) 0), (Z.ltb_spec j 0); try lia.
    replace (Z.to_nat (j + 1)) with (S (Z.to_nat j)) by lia.
    rewrite nth_error_inserted_after by lia. reflexivity.
Qed.

Lemma double_spliceInsert_rows (rows : list Entity) (j : Z) (row : Entity) :
  spliceInsert (map Some rows) j (Some row)
  = map Some (spliceInsert rows j row).
Proof.
  unfold spliceInsert.
  now rewrite length_map, map_app, firstn_map; cbn; rewrite skipn_map.
Qed.

(** The moves into a slot of the siblings, by the elements around the
    slot. *)
Lemma double_card_move
      (rows : list Entity) (fromIndex : Index) (j : Z) (card : Entity) :
  let siblings := siblingsOf rows fromIndex in
  (0 <= j <= Z.of_nat (List.length siblings))%Z ->
  changeCardPosition rows fromIndex (Some j) card
  = (p <- cardPosition (get (map Some siblings) (j - 1))
                       (get (map Some siblings) j) ;;
     Ok {| cardNewPosition := Some p;
           cardRows := map Some (spliceInsert siblings j
                                              (setPosition card p)) |}).
Proof.
  intros siblings Hj. unfold changeCardPosition.
  pose proof (double_removeMoved_siblings rows fromIndex) as Hrest.
  destruct (removeMoved rows fromIndex) as [rest moved]; cbn [fst] in Hrest.
  subst rest. fold siblings.
  rewrite double_neighbours_inserted by (rewrite length_map; exact Hj).
  destruct (cardPosition _ _) as [p|]; cbn [bind titleOf]; [|reflexivity].
  now rewrite double_spliceInsert_rows.
Qed.

Lemma double_list_move
      (rows : list Entity) (i j : Z) (moved : Entity) :
  let siblings := siblingsOf rows (Some i) in
  (0 <= j <= Z.of_nat (List.length siblings))%Z ->
  (0 <= i)%Z -> nth_error rows (Z.to_nat i) = Some moved ->
  changeListPosition rows (Some i) (Some j)
  = (p <- listPosition (get (map Some siblings) (j - 1))
                       (get (map Some siblings) j) ;;
     Ok {| listNewPosition := p;
           listRows := map Some (spliceInsert siblings j
                                              (setPosition moved p)) |}).
Proof.
  intros siblings Hj Hi Hmoved. unfold changeListPosition.
  pose proof (double_removeMoved_siblings rows (Some i)) as Hrest.
  pose proof (double_removeMoved_at rows i moved Hi Hmoved) as Hsnd.
  destruct (removeMoved rows (Some i)) as [rest mv]; cbn [fst snd] in *.
  subst rest mv. fold siblings. cbn [insertAt].
  rewrite double_neighbours_inserted by (rewrite length_map; exact Hj).
  destruct (listPosition _ _) as [p|]; cbn [bind titleOf option_map];
    [|reflexivity].
  now rewrite double_spliceInsert_rows.
Qed.

(** The position the moves into a slot compute, from the computation on
    the elements around the slot. *)
Lemma movesGive_slot
      (rows : list Entity) (fromIndex : Index) (j : Z) (p : double) :
  let siblings := siblingsOf rows fromIndex in
  (0 <= j <= Z.of_nat (List.length siblings))%Z ->
  listPosition (get (map Some siblings) (j - 1)) (get (map Some siblings) j)
  = Ok p ->
  movesGive rows fromIndex j p.
Proof.
  intros siblings Hj Hp. split.
  - intros card. rewrite double_card_move by exact Hj. fold siblings.
    assert (Hc : cardPosition (get (map Some siblings) (j - 1))
                              (get (map Some siblings) j) = Ok p).
    { revert Hp. destruct (get (map Some siblings) (j - 1)),
                          (get (map Some siblings) j); cbn; congruence. }
    rewrite Hc; cbn [bind]. eexists. split; reflexivity.
  - intros i moved -> Hi Hmoved.
    rewrite (double_list_move rows i j moved Hj Hi Hmoved).
    fold siblings. rewrite Hp; cbn [bind]. eexists. split; reflexivity.
Qed.


Lemma slot_tail (front : list Entity) (a : Entity) :
  let siblings := (front ++ [a])%list in
  let j := Z.of_nat (List.length siblings) in
  (0 <= j <= Z.of_nat (List.length siblings))%Z /\
  get (map Some siblings) (j - 1) = Some a /\
  get (map Some siblings) j = None.
Proof.
  intros siblings j. subst siblings j. rewrite !double_get_rows.
  rewrite length_app; cbn [List.length]. split; [lia|].
  destruct (Z.ltb_spec (Z.of_nat (List.length front + 1) - 1) 0); [lia|].
  destruct (Z.ltb_spec (Z.of_nat (List.length front + 1)) 0); [lia|].
  replace (Z.to_nat (Z.of_nat (List.length front + 1) - 1))
    with (List.length front) by lia.
  rewrite Nat2Z.id. split.
  - now rewrite nth_error_app2, Nat.sub_diag by lia.
  - apply nth_error_None. rewrite length_app; cbn. lia.
Qed.

Lemma slot_head (back : list Entity) (b : Entity) :
  let siblings := b :: back in
  (0 <= 0 <= Z.of_nat (List.length siblings))%Z /\
  get (map Some siblings) (0 - 1) = None /\
  get (map Some siblings) 0 = Some b.
Proof. cbn. repeat split; lia. Qed.

Lemma below_trans (x y z : double) :
  below x y = true -> below y z = true -> below x z = true.
Proof.
  rewrite !below_iff. intros (a & b & Ha & Hb & Hab) (b' & c & Hb' & Hc & Hbc).
  rewrite Hb in Hb'. inversion Hb'; subst b'.
  exists a, c. repeat split; auto. lra.
Qed.

Lemma double_ascending_adjacent (rows : list Entity) :
  ascending rows = true <->
  forall i a b,
    nth_error rows i = Some a -> nth_error rows (S i) = Some b ->
    below (position a) (position b) = true.
Proof.
  induction rows as [|r [|r' rows] IH].
  - split; [intros _ [|i] a b H; discriminate|reflexivity].
  - split; [intros _ [|[|i]] a b Ha Hb; discriminate|reflexivity].
  - change (ascending (r :: r' :: rows))
      with (below (position r) (position r') && ascending (r' :: rows))%bool.
    rewrite andb_true_iff, IH. split.
    + intros [Hlt Hadj] [|i] a b Ha Hb.
      * cbn in Ha, Hb. inversion Ha; inversion Hb; subst. exact Hlt.
      * apply (Hadj i); assumption.
    + intros Hadj. split.
      * apply (Hadj 0%nat); reflexivity.
      * intros i a b Ha Hb. apply (Hadj (S i)); assumption.
Qed.

Lemma double_ascending_sorted (rows : list Entity) :
  ascending rows = true ->
  forall i j a b,
    (i < j)%nat -> nth_error rows i = Some a -> nth_error rows j = Some b ->
    below (position a) (position b) = true.
Proof.
  intros Hasc. pose proof (proj1 (double_ascending_adjacent rows) Hasc) as Hadj.
  intros i j. induction j as [|j IH]; intros a b Hij Ha Hb; [lia|].
  destruct (Nat.eq_dec i j) as [->|Hne].
  - apply (Hadj j); assumption.
  - destruct (nth_error rows j) as [c|] eqn:Hc.
    + apply (below_trans _ (position c)).
      * apply IH; [lia|assumption|reflexivity].
      * apply (Hadj j); assumption.
    + apply nth_error_None in Hc.
      assert (S j < List.length rows)%nat by (apply nth_error_Some; congruence).
      lia.
Qed.

(** Strictly ascending rows are so without one of them. *)
Lemma double_siblings_ascending (rows : list Entity) (fromIndex : Index) :
  ascending rows = true -> ascending (siblingsOf rows fromIndex) = true.
Proof.
  intros Hasc. destruct fromIndex as [i|]; [|exact Hasc].
  pose proof (double_ascending_sorted rows Hasc) as Hsorted.
  apply double_ascending_adjacent. unfold siblingsOf, spliceDelete1; cbn [fst].
  set (k := relativeStart (List.length rows) i).
  intros n a b. rewrite !nth_error_without.
  destruct (Nat.ltb_spec n k), (Nat.ltb_spec (S n) k); try lia; intros Ha Hb.
  - apply (Hsorted n (S n)); auto.
  - apply (Hsorted n (S (S n))); auto.
  - apply (Hsorted (S n) (S (S n))); auto.
Qed.

End DoubleMoves.

(** ** The ordering on binary64 positions: the statements of the
    specification *)

Section DoubleClaims.

Import Doubles.

(** The constants are binary64 numbers, and the sums, differences and
    means used below are those of the machine's floating-point unit. *)
Example constants_are_doubles :
  forallb (valid_binary prec emax)
          [one; two; tiny; tinyNegative; onePlus; huge; hugeNegative;
           minusOne; threeHalves; fiveHalves; three; four; five] = true.
Proof. reflexivity. Qed.

Example machine_arithmetic :
  let plus := fun x y => Prim2SF (SF2Prim x + SF2Prim y)%float in
  let minus := fun x y => Prim2SF (SF2Prim x - SF2Prim y)%float in
  let over := fun x y => Prim2SF (SF2Prim x / SF2Prim y)%float in
  plus tiny one = add tiny one /\
  plus onePlus one = add onePlus one /\
  plus huge one = add huge one /\
  minus tinyNegative one = sub tinyNegative one /\
  minus hugeNegative one = sub hugeNegative one /\
  over (plus onePlus one) two = div (add onePlus one) two.
Proof. vm_compute. repeat split. Qed.




(** C9, as stated, fails: after a neighbour at [2^-60] the tail position
    is [1], the sum [2^-60 + 1] being rounded to [1], and not
    [ceil(2^-60) + 1 = 2]; before a neighbour at [-2^-60] the head position
    is [-1], and not [floor(-2^-60) - 1 = -2]. *)
Lemma rounded_sum_loses_fraction :
  let card := mkEntity "C" "c" five in
  changeCardPosition [mkEntity "A" "a" tiny] None (Some 1%Z) card
  = Ok {| cardNewPosition := Some one;
          cardRows := [Some (mkEntity "A" "a" tiny);
                       Some (mkEntity "C" "c" one)] |} /\
  changeListPosition [mkEntity "A" "a" tiny; card] (Some 1%Z) (Some 1%Z)
  = Ok {| listNewPosition := one;
          listRows := [Some (mkEntity "A" "a" tiny);
                       Some (mkEntity "C" "c" one)] |} /\
  option_map Qceiling (valueOf tiny) = Some 1%Z /\
  isNumber one (inject_Z 1 + 1) = false /\
  changeCardPosition [mkEntity "A" "a" tinyNegative] None (Some 0%Z) card
  = Ok {| cardNewPosition := Some minusOne;
          cardRows := [Some (mkEntity "C" "c" minusOne);
                       Some (mkEntity "A" "a" tinyNegative)] |} /\
  option_map Qfloor (valueOf tinyNegative) = Some (-1)%Z /\
  isNumber minusOne (inject_Z (-1) - 1) = false.
Proof. vm_compute. repeat split. Qed.

(** C9, amended: after the last sibling of a move, the computed position
    is [Math.ceil] of the binary64 sum of that sibling's position and 1;
    before the first sibling, it is [Math.floor] of the binary64 difference
    of that sibling's position and 1; for the move of any card, and for the
    move of a list that is among the rows.  Whenever the sum is computed
    without rounding, the position is [ceil(prev.position) + 1]; whenever
    the difference is, the position is [floor(next.position) - 1]; for
    integral and fractional neighbour positions alike. *)
Theorem extremity_positions
        (rows : list Entity) (fromIndex : Index) :
  let siblings := siblingsOf rows fromIndex in
  (forall front a,
      siblings = (front ++ [a])%list ->
      let p := ceil (add (position a) one) in
      movesGive rows fromIndex (Z.of_nat (List.length siblings)) p /\
      (forall q,
          valueOf (position a) = Some q ->
          exactSum (position a) one = true ->
          isNumber p (inject_Z (Qceiling q) + 1) = true)) /\
  (forall b back,
      siblings = b :: back ->
      let p := floor (sub (position b) one) in
      movesGive rows fromIndex 0 p /\
      (forall q,
          valueOf (position b) = Some q ->
          exactDifference (position b) one = true ->
          isNumber p (inject_Z (Qfloor q) - 1) = true)).
Proof.
  intros siblings. split.
  - intros front a Hsib p.
    destruct (slot_tail front a) as (Hj & Hprev & Hnext).
    rewrite <- Hsib in Hj, Hprev, Hnext. split.
    + apply movesGive_slot; [exact Hj|]. fold siblings.
      now rewrite Hprev, Hnext.
    + intros q Hq Hexact. now apply ceil_exactSum.
  - intros b back Hsib p.
    destruct (slot_head back b) as (Hj & Hprev & Hnext).
    rewrite <- Hsib in Hj, Hprev, Hnext. split.
    + apply movesGive_slot; [exact Hj|]. fold siblings.
      now rewrite Hprev, Hnext.
    + intros q Hq Hexact. now apply floor_exactDifference.
Qed.

Lemma extremity_positions_witness :
  let rows := [rowH; rowC] in
  valueOf (position rowH) = Some (5629499534213120 # 2251799813685248) /\
  (siblingsOf rows (Some 1%Z) = ([] ++ [rowH])%list /\
   exactSum (position rowH) one = true /\
   (exists m,
       changeCardPosition rows (Some 1%Z) (Some 1%Z) rowC = Ok m /\
       cardNewPosition m = Some four) /\
   (exists m,
       changeListPosition rows (Some 1%Z) (Some 1%Z) = Ok m /\
       listNewPosition m = four) /\
   isNumber four
            (inject_Z (Qceiling (5629499534213120 # 2251799813685248)) + 1)
   = true) /\
  (siblingsOf rows (Some 1%Z) = rowH :: [] /\
   exactDifference (position rowH) one = true /\
   (exists m,
       changeCardPosition rows (Some 1%Z) (Some 0%Z) rowC = Ok m /\
       cardNewPosition m = Some one) /\
   (exists m,
       changeListPosition rows (Some 1%Z) (Some 0%Z) = Ok m /\
       listNewPosition m = one) /\
   isNumber one
            (inject_Z (Qfloor (5629499534213120 # 2251799813685248)) - 1)
   = true).
Proof.
  intros rows. split; [reflexivity|split].
  - split; [reflexivity|split; [reflexivity|]].
    pose (H := proj1 (extremity_positions rows (Some 1%Z)) [] rowH eq_refl).
    split; [exact (proj1 (proj1 H) rowC)|].
    split; [exact (proj2 (proj1 H) 1%Z rowC eq_refl Z.le_0_1 eq_refl)|].
    exact (proj2 H _ eq_refl eq_refl).
  - split; [reflexivity|split; [reflexivity|]].
    pose (H := proj2 (extremity_positions rows (Some 1%Z)) rowH [] eq_refl).
    split; [exact (proj1 (proj1 H) rowC)|].
    split; [exact (proj2 (proj1 H) 1%Z rowC eq_refl Z.le_0_1 eq_refl)|].
    exact (proj2 H _ eq_refl eq_refl).
Defined.

End DoubleClaims.

Section DoubleProperties.

Import Doubles.

Lemma cardPosition_between (prev next : Slot) :
  (forall a b, prev = Some a -> next = Some b ->
               below (position a) (position b) = true) ->
  match prev, next with
  | Some a, Some b => exactMean (position a) (position b)
  | Some a, None => exactSum (position a) one
  | None, Some b => exactDifference (position b) one
  | None, None => true
  end = true ->
  exists p,
    cardPosition prev next = Ok p /\
    (forall a, prev = Some a -> below (position a) p = true) /\
    (forall b, next = Some b -> below p (position b) = true).
Proof.
  intros Hlt Hexact. destruct prev as [a|], next as [b|]; cbn.
  - destruct (mean_exactMean _ _ (Hlt a b eq_refl eq_refl) Hexact) as [H1 H2].
    eexists. split; [reflexivity|]. split; intros ? E; now inversion E; subst.
  - unfold exactSum in Hexact.
    destruct (valueOf (position a)) as [q|] eqn:Hq; [|discriminate].
    assert (Hsum : exactSum (position a) one = true)
      by (unfold exactSum; now rewrite Hq).
    destruct (ceil_exactSum _ q Hq Hsum) as [_ H].
    eexists. split; [reflexivity|]. split; intros ? E;
      [now inversion E; subst|discriminate].
  - unfold exactDifference in Hexact.
    destruct (valueOf (position b)) as [q|] eqn:Hq; [|discriminate].
    assert (Hdiff : exactDifference (position b) one = true)
      by (unfold exactDifference; now rewrite Hq).
    destruct (floor_exactDifference _ q Hq Hdiff) as [_ H].
    eexists. split; [reflexivity|]. split; intros ? E;
      [discriminate|now inversion E; subst].
  - eexists. split; [reflexivity|]. split; intros ? E; discriminate.
Qed.

(** X8: a card move into a slot of rows that are strictly ascending by
    position stores rows that are strictly ascending again, the moved card
    included, provided that the position of the slot is computed without
    rounding and that no sibling has the id of the moved card (the rows
    hold objects: a card that is still among its siblings would change
    there too). *)
Theorem move_keeps_ascending
        (rows : list Entity) (fromIndex : Index) (j : Z) (card : Entity) :
  let siblings := siblingsOf rows fromIndex in
  ascending rows = true ->
  (0 <= j <= Z.of_nat (List.length siblings))%Z ->
  exactAt siblings j = true ->
  forallb (fun row => negb (id row =? id card)) siblings = true ->
  exists p,
    changeCardPosition rows fromIndex (Some j) card
    = Ok {| cardNewPosition := Some p;
            cardRows := map Some (spliceInsert siblings j
                                               (setPosition card p)) |} /\
    ascending (spliceInsert siblings j (setPosition card p)) = true.
Proof.
  intros siblings Hasc Hj Hexact _.
  pose proof (proj1 (double_ascending_adjacent siblings)
                    (double_siblings_ascending rows fromIndex Hasc)) as Hadj.
  rewrite (double_card_move rows fromIndex j card Hj). fold siblings.
  unfold exactAt in Hexact. revert Hexact. rewrite !double_get_rows.
  destruct (Z.ltb_spec j 0); [lia|]. set (k := Z.to_nat j) in *.
  intros Hexact.
  destruct (cardPosition_between
              (if (j - 1 <? 0)%Z then None
               else nth_error siblings (Z.to_nat (j - 1)))
              (nth_error siblings k)) as (p & Hp & Hprev & Hnext).
  { intros a b. destruct (Z.ltb_spec (j - 1) 0); [discriminate|].
    intros Ha Hb. apply (Hadj (Z.to_nat (j - 1))); [exact Ha|].
    now replace (S (Z.to_nat (j - 1))) with k by lia. }
  { exact Hexact. }
  exists p. rewrite Hp; cbn [bind]. split; [reflexivity|].
  apply double_ascending_adjacent. intros i a b.
  unfold spliceInsert. rewrite relativeStart_index by exact Hj. fold k.
  rewrite !nth_error_inserted by lia.
  destruct (Nat.ltb_spec i k), (Nat.ltb_spec (S i) k); try lia;
    destruct (Nat.eqb_spec i k), (Nat.eqb_spec (S i) k); try lia;
    intros Ha Hb.
  - apply (Hadj i); assumption.
  - inversion Hb; subst b. cbn [setPosition position]. apply Hprev.
    destruct (Z.ltb_spec (j - 1) 0); [lia|].
    now replace (Z.to_nat (j - 1)) with i by lia.
  - inversion Ha; subst a. cbn [setPosition position]. apply Hnext.
    now replace (S i - 1)%nat with k in Hb by lia.
  - apply (Hadj (i - 1)%nat); [assumption|].
    now replace (S (i - 1)) with (S i - 1)%nat by lia.
Qed.

Lemma move_keeps_ascending_witness :
  ascending [rowA; rowB; rowC] = true /\
  (0 <= 1 <= Z.of_nat
              (List.length (siblingsOf [rowA; rowB; rowC] (Some 2%Z))))%Z /\
  exactAt (siblingsOf [rowA; rowB; rowC] (Some 2%Z)) 1 = true /\
  forallb (fun row => negb (id row =? id rowC))
          (siblingsOf [rowA; rowB; rowC] (Some 2%Z)) = true /\
  exists p,
    changeCardPosition [rowA; rowB; rowC] (Some 2%Z) (Some 1%Z) rowC
    = Ok {| cardNewPosition := Some p;
            cardRows := [Some rowA; Some (setPosition rowC p); Some rowB] |} /\
    ascending [rowA; setPosition rowC p; rowB] = true.
Proof.
  assert (Hj : (0 <= 1 <= Z.of_nat
                  (List.length (siblingsOf [rowA; rowB; rowC] (Some 2%Z))))%Z)
    by (change (0 <= 1 <= 2)%Z; lia).
  split; [reflexivity|split; [exact Hj|split; [reflexivity|]]].
  split; [reflexivity|].
  exact (move_keeps_ascending [rowA; rowB; rowC] (Some 2%Z) 1 rowC
                              eq_refl Hj eq_refl eq_refl).
Defined.

End DoubleProperties.

(** ** The gateway: who is authenticated *)

Section Gateway.

Variables EVERYONE AUTHENTICATED : string.
Variable cookieParse : string -> list (string * string).
Variable resolveToken : string -> option User.

Local Abbreviation auth :=
  (authenticate EVERYONE AUTHENTICATED cookieParse resolveToken).

Lemma pick_sound (props : list (string * jsval)) (names : list string) (k : string) :
  In k (map fst (pick props names)) ->
  In k names /\ In k (map fst props) /\ assoc k (pick props names) = assoc k props.
Proof.
  induction names as [|n names IH]; cbn; [intros []|].
  destruct (existsb (fun kv => fst kv =? n) props) eqn:E.
  - cbn. destruct (String.eqb_spec n k) as [->|Hne].
    + intros _. repeat split; auto.
      apply existsb_exists in E as ([k' v] & Hin & Hk). cbn in Hk.
      apply String.eqb_eq in Hk; subst k'.
      apply in_map_iff. now exists (k, v).
    + intros [H|H]; [contradiction|]. destruct (IH H) as (H1 & H2 & H3). auto.
  - intros H. destruct (IH H) as (H1 & H2 & H3). auto.
Qed.

Lemma authenticate_undefined (req : Request) :
  returned (auth req) = RetUndefined ->
  meta (auth req) = {| roles := [EVERYONE]; token := None; userID := None |}.
Proof.
  unfold authenticate.
  destruct (requestToken cookieParse req) as [t|]; cbn [nonEmpty]; [|reflexivity].
  destruct (negb (t =? "")); [|reflexivity].
  destruct (resolveToken t); cbn; discriminate.
Qed.

(** X11: the three outcomes of [authenticate].  Without a token nothing is
    looked up and [undefined] is returned; with a token that does not
    resolve [null] is returned; in both cases the only role is
    [ROLE_EVERYONE] and neither [token] nor [userID] is set.  Only a token
    that resolves to a user adds [ROLE_AUTHENTICATED] and the user's roles,
    in this order after [ROLE_EVERYONE], and sets [token] and [userID]. *)
Theorem authenticate_outcomes (req : Request) :
  match returned (auth req) with
  | RetUndefined =>
      resolved (auth req) = [] /\
      meta (auth req) = {| roles := [EVERYONE]; token := None; userID := None |}
  | RetNull =>
      exists t,
        t <> "" /\ resolved (auth req) = [t] /\ resolveToken t = None /\
        meta (auth req) = {| roles := [EVERYONE]; token := None; userID := None |}
  | RetUser props =>
      exists t user,
        t <> "" /\ resolved (auth req) = [t] /\ resolveToken t = Some user /\
        meta (auth req)
        = {| roles := EVERYONE :: AUTHENTICATED
                        :: match userRoles user with
                           | Some rs => rs
                           | None => []
                           end;
             token := Some t;
             userID := Some (assoc "id" (userProps user)) |} /\
        props = pick (userProps user)
                     ["id"; "email"; "username"; "fullName"; "avatar"]
  end.
Proof.
  unfold authenticate.
  destruct (requestToken cookieParse req) as [t|] eqn:Ht; cbn [nonEmpty].
  - destruct (String.eqb_spec t "") as [->|Hne]; cbn [negb].
    + cbn. auto.
    + destruct (resolveToken t) as [user|] eqn:Hu; cbn.
      * exists t, user. repeat split; auto.
        now destruct (userRoles user).
      * exists t. auto.
  - cbn. auto.
Qed.

(** X12: a token in the [jwt-token] cookie wins: the [Authorization] header
    is not looked at, whatever it holds. *)
Theorem cookie_token_wins (c t : string) (header header' : option string) :
  c <> "" -> t <> "" ->
  cookieValue (cookieParse c) "jwt-token" = Some t ->
  auth {| headerCookie := Some c; headerAuthorization := header |}
  = auth {| headerCookie := Some c; headerAuthorization := header' |} /\
  resolved (auth {| headerCookie := Some c; headerAuthorization := header |})
  = [t].
Proof.
  intros Hc Ht Hcookie.
  assert (Htoken : forall h,
             requestToken cookieParse
                          {| headerCookie := Some c; headerAuthorization := h |}
             = Some t).
  { intros h. unfold requestToken; cbn.
    destruct (String.eqb_spec c ""); [contradiction|]. cbn.
    rewrite Hcookie. cbn.
    destruct (String.eqb_spec t ""); [contradiction|]. reflexivity. }
  unfold authenticate. rewrite !Htoken. cbn [nonEmpty].
  destruct (String.eqb_spec t ""); [contradiction|]. cbn [negb].
  split; [reflexivity|]. now destruct (resolveToken t).
Qed.

(** X13: without a cookie, the token is what follows ["Bearer "] in the
    [Authorization] header.  A header that does not start so, or that ends
    there, makes the request anonymous: nothing is looked up. *)
Theorem bearer_token (header : string) :
  let req := {| headerCookie := None; headerAuthorization := Some header |} in
  (forall t, header = "Bearer " ++ t -> t <> "" -> resolved (auth req) = [t]) /\
  (String.prefix "Bearer " header = false \/ header = "Bearer " ->
   returned (auth req) = RetUndefined /\ resolved (auth req) = []).
Proof.
  intros req. split.
  - intros t -> Ht.
    assert (Htoken : requestToken cookieParse req = Some t)
      by (unfold requestToken; cbn; now destruct t).
    unfold authenticate. rewrite Htoken. cbn [nonEmpty].
    destruct (String.eqb_spec t ""); [contradiction|]. cbn [negb].
    now destruct (resolveToken t).
  - intros [Hp| ->].
    + unfold authenticate, requestToken; cbn. rewrite Hp, andb_false_r. cbn.
      auto.
    + cbn. auto.
Qed.

(** X14: the user handed on to the other nodes carries no property but
    [id], [email], [username], [fullName] and [avatar], each with the value
    the resolved user has for it. *)
Theorem returned_user_is_reduced (req : Request) (props : list (string * jsval)) :
  returned (auth req) = RetUser props ->
  exists t user,
    resolved (auth req) = [t] /\ resolveToken t = Some user /\
    forall k,
      In k (map fst props) ->
      In k ["id"; "email"; "username"; "fullName"; "avatar"] /\
      In k (map fst (userProps user)) /\
      assoc k props = assoc k (userProps user).
Proof.
  unfold authenticate.
  destruct (requestToken cookieParse req) as [t|]; cbn [nonEmpty];
    [|discriminate].
  destruct (negb (t =? "")); [|discriminate].
  destruct (resolveToken t) as [user|] eqn:Hu; cbn [returned resolved];
    [|discriminate].
  intros H. injection H as <-.
  exists t, user. split; [reflexivity|split; [exact Hu|]].
  intros k Hk. now apply pick_sound.
Qed.

End Gateway.

Lemma cookie_token_wins_witness :
  "jwt-token=abc" <> "" /\ "abc" <> "" /\
  cookieValue (demoCookieParse "jwt-token=abc") "jwt-token" = Some "abc" /\
  authenticate "$everyone" "$authenticated" demoCookieParse demoResolveToken
    {| headerCookie := Some "jwt-token=abc";
       headerAuthorization := Some "Bearer xyz" |}
  = authenticate "$everyone" "$authenticated" demoCookieParse demoResolveToken
      {| headerCookie := Some "jwt-token=abc"; headerAuthorization := None |}.
Proof.
  assert (Hc : "jwt-token=abc" <> "") by discriminate.
  assert (Ht : "abc" <> "") by discriminate.
  split; [exact Hc|split; [exact Ht|split; [reflexivity|]]].
  exact (proj1 (cookie_token_wins
                  "$everyone" "$authenticated" demoCookieParse demoResolveToken
                  "jwt-token=abc" "abc" (Some "Bearer xyz") None
                  Hc Ht eq_refl)).
Defined.

Lemma bearer_token_witness :
  "Bearer abc" = "Bearer " ++ "abc" /\ "abc" <> "" /\
  resolved (authenticate "$everyone" "$authenticated"
                         demoCookieParse demoResolveToken
                         {| headerCookie := None;
                            headerAuthorization := Some "Bearer abc" |})
  = ["abc"].
Proof.
  assert (Ht : "abc" <> "") by discriminate.
  split; [reflexivity|split; [exact Ht|]].
  exact (proj1 (bearer_token
                  "$everyone" "$authenticated" demoCookieParse demoResolveToken
                  "Bearer abc") "abc" eq_refl Ht).
Defined.

Lemma returned_user_is_reduced_witness :
  returned (authenticate "$everyone" "$authenticated"
                         demoCookieParse demoResolveToken
                         {| headerCookie := None;
                            headerAuthorization := Some "Bearer abc" |})
  = RetUser [("id", JStr "u1"); ("username", JStr "ann")] /\
  exists t user,
    resolved (authenticate "$everyone" "$authenticated"
                           demoCookieParse demoResolveToken
                           {| headerCookie := None;
                              headerAuthorization := Some "Bearer abc" |})
    = [t] /\
    demoResolveToken t = Some user /\
    forall k,
      In k (map fst [("id", JStr "u1"); ("username", JStr "ann")]) ->
      In k ["id"; "email"; "username"; "fullName"; "avatar"] /\
      In k (map fst (userProps user)) /\
      assoc k [("id", JStr "u1"); ("username", JStr "ann")]
      = assoc k (userProps user).
Proof.
  split; [reflexivity|].
  exact (returned_user_is_reduced
           "$everyone" "$authenticated" demoCookieParse demoResolveToken
           {| headerCookie := None; headerAuthorization := Some "Bearer abc" |}
           [("id", JStr "u1"); ("username", JStr "ann")] eq_refl).
Defined.

(** X15: a request without token leaves [ctx.meta.userID] unset, and
    [isEntityOwner] then holds for the entities whose owner is [null] or
    [undefined] and for no other; with a string as user id it holds for the
    entities owned by that very string, and without entity it never holds. *)
Theorem anonymous_owns_the_ownerless
        (everyone authenticated : string)
        (cookieParse : string -> list (string * string))
        (resolveToken : string -> option User) (req : Request) :
  (returned (authenticate everyone authenticated cookieParse resolveToken req)
   = RetUndefined ->
   userID (meta (authenticate everyone authenticated cookieParse
                              resolveToken req)) = None) /\
  (forall owner,
      isEntityOwner (Some owner) IdUndefined = true
      <-> owner = IdNull \/ owner = IdUndefined) /\
  (forall owner s,
      isEntityOwner (Some owner) (IdStr s) = true <-> owner = IdStr s) /\
  (forall user, isEntityOwner None user = false).
Proof.
  repeat split.
  - intros H.
    now rewrite (authenticate_undefined everyone authenticated cookieParse
                                        resolveToken req H).
  - destruct owner; cbn; auto; discriminate.
  - intros [->| ->]; reflexivity.
  - destruct owner as [| |t]; cbn; try discriminate.
    intros H. apply String.eqb_eq in H. now subst.
  - intros ->. cbn. apply String.eqb_refl.
Qed.

Lemma anonymous_owns_the_ownerless_witness :
  returned (authenticate "$everyone" "$authenticated"
                         demoCookieParse demoResolveToken
                         {| headerCookie := None; headerAuthorization := None |})
  = RetUndefined /\
  userID (meta (authenticate "$everyone" "$authenticated"
                             demoCookieParse demoResolveToken
                             {| headerCookie := None;
                                headerAuthorization := None |})) = None.
Proof.
  split; [reflexivity|].
  exact (proj1 (anonymous_owns_the_ownerless
                  "$everyone" "$authenticated" demoCookieParse demoResolveToken
                  {| headerCookie := None; headerAuthorization := None |})
               eq_refl).
Defined.

(** ** The GraphQL handler: what it answers *)

Section HandlerProperties.

Variable stringToNumber : string -> option Q.
Variable runHttpQuery : HttpRequest -> jsval -> Ran.
Variable queryTooLarge : Error.

Local Abbreviation handler :=
  (graphqlHandler stringToNumber runHttpQuery queryTooLarge).

Lemma answerError_status (error : Error) :
  resStatusCode (answerError error)
  = Some (if truthy (errStatusCode error) then errStatusCode error
          else JNum 500).
Proof.
  unfold answerError, orElse; cbn [resStatusCode].
  destruct (truthy (errStatusCode error)) eqn:E; cbn [negb].
  - now rewrite !E.
  - reflexivity.
Qed.

(** X16: the handler either returns the response of [runHttpQuery], leaving
    the status alone, or ends the response with the message of the error
    that was thrown and returns nothing.  The status is then the error's
    [statusCode] when it is truthy and 500 otherwise: the error's [code] is
    never used. *)
Theorem handler_answers (req : HttpRequest) :
  (exists graphqlResponse headers,
      runHttpQuery req (queryOf req) = Responded graphqlResponse headers /\
      handler req = {| resHeaders := headers;
                       resStatusCode := None;
                       resEnd := None;
                       handlerReturned := Some graphqlResponse |}) \/
  (exists error,
      (error = queryTooLarge \/ runHttpQuery req (queryOf req) = Failed error) /\
      handlerReturned (handler req) = None /\
      resEnd (handler req) = Some (errMessage error) /\
      resStatusCode (handler req)
      = Some (if truthy (errStatusCode error) then errStatusCode error
              else JNum 500)).
Proof.
  unfold graphqlHandler.
  destruct (truthy (queryOf req)
            && greaterThan stringToNumber (lengthOf (queryOf req)) 2000).
  - right. exists queryTooLarge. rewrite answerError_status. auto.
  - destruct (runHttpQuery req (queryOf req)) as [r hs|error] eqn:E.
    + left. eauto.
    + right. exists error. rewrite answerError_status. auto.
Qed.

(** X17: the bound on the query.  A [POST] whose body is a string of more
    than 2000 characters is answered with the error [queryTooLarge], and
    [runHttpQuery] is not consulted; up to 2000 characters the string is
    handed to [runHttpQuery].  A body object is measured by its own
    [length] property: a number above 2000 there rejects it too, and without
    that property it is never rejected. *)
Theorem query_bound (payload : string) (props : list (string * jsval))
        (parsed : result jsval) :
  let text := {| method := "POST"; filePayload := JUndefined;
                 body := JStr payload; urlQuery := parsed |} in
  let object := {| method := "POST"; filePayload := JUndefined;
                   body := JObj props; urlQuery := parsed |} in
  let passed req query :=
    match runHttpQuery req query with
    | Responded graphqlResponse headers =>
        {| resHeaders := headers;
           resStatusCode := None;
           resEnd := None;
           handlerReturned := Some graphqlResponse |}
    | Failed error => answerError error
    end in
  ((2000 < String.length payload)%nat ->
   handler text = answerError queryTooLarge) /\
  ((String.length payload <= 2000)%nat ->
   handler text = passed text (JStr payload)) /\
  (forall n, assoc "length" props = JNum n -> (2000 < n)%Z ->
             handler object = answerError queryTooLarge) /\
  (assoc "length" props = JUndefined ->
   handler object = passed object (JObj props)).
Proof.
  intros text object passed. unfold graphqlHandler.
  assert (Ht : queryOf text = JStr payload) by reflexivity.
  assert (Ho : queryOf object = JObj props) by reflexivity.
  rewrite Ht, Ho. cbn [lengthOf greaterThan truthy andb].
  repeat split.
  - intros H. destruct payload as [|c rest]; [cbn in H; lia|].
    cbn [String.eqb negb andb].
    destruct (Z.ltb_spec 2000 (Z.of_nat (String.length (String c rest))));
      [reflexivity|lia].
  - intros H.
    destruct (negb (payload =? "")); cbn [andb]; [|reflexivity].
    destruct (Z.ltb_spec 2000 (Z.of_nat (String.length payload)));
      [lia|reflexivity].
  - intros n Hn Hgt. rewrite Hn. cbn.
    destruct (Z.ltb_spec 2000 n); [reflexivity|lia].
  - intros Hn. rewrite Hn. reflexivity.
Qed.

End HandlerProperties.

Lemma query_bound_witness :
  (String.length "{ me { id } }" <= 2000)%nat /\
  graphqlHandler (fun _ => None) demoRun demoTooLarge
    {| method := "POST"; filePayload := JUndefined;
       body := JStr "{ me { id } }"; urlQuery := Ok JUndefined |}
  = {| resHeaders := [("Content-Type", "application/json")];
       resStatusCode := None;
       resEnd := None;
       handlerReturned := Some "{}" |}.
Proof.
  assert (H : (String.length "{ me { id } }" <= 2000)%nat) by (cbn; lia).
  split; [exact H|].
  exact (proj1 (proj2 (query_bound (fun _ => None) demoRun demoTooLarge
                                   "{ me { id } }" [] (Ok JUndefined))) H).
Defined.

(** ** The boards of the store *)

Section BoardProperties.

Lemma assoc_setProp (props : list (string * jsval)) (k k' : string) (v : jsval) :
  assoc k (setProp props k' v) = if k' =? k then v else assoc k props.
Proof.
  induction props as [|[k0 v0] props IH]; cbn; [reflexivity|].
  destruct (String.eqb_spec k0 k') as [->|Hne]; cbn.
  - destruct (String.eqb_spec k' k); reflexivity.
  - rewrite IH.
    destruct (String.eqb_spec k0 k) as [->|], (String.eqb_spec k' k) as [->|];
      try reflexivity. contradiction.
Qed.

Lemma hasProp_in (props : list (string * jsval)) (k : string) :
  hasProp props k = true <-> In k (map fst props).
Proof.
  unfold hasProp. rewrite existsb_exists, in_map_iff. split.
  - intros ([k' v] & Hin & H). cbn in H. apply String.eqb_eq in H; subst.
    now exists (k, v).
  - intros ([k' v] & <- & Hin). exists (k', v). split; [exact Hin|].
    apply String.eqb_refl.
Qed.

Lemma assoc_assignProps (source : list (string * jsval)) :
  NoDup (map fst source) ->
  forall target k,
    assoc k (assignProps target source)
    = if hasProp source k then assoc k source else assoc k target.
Proof.
  unfold assignProps.
  induction source as [|[k1 v1] source IH]; cbn [map fst fold_left];
    intros Hnd target k; [reflexivity|].
  inversion Hnd as [|? ? Hnotin Hnd']; subst.
  rewrite (IH Hnd'). cbn [hasProp existsb fst snd assoc]. fold (hasProp source k).
  rewrite assoc_setProp.
  destruct (String.eqb_spec k1 k) as [->|Hne]; cbn [orb]; [|reflexivity].
  destruct (hasProp source k) eqn:E; [|reflexivity].
  apply hasProp_in in E. contradiction.
Qed.

Lemma findBoard_some (boards : list Board) (board found : Board) :
  findBoard boards (boardId board) = Some found ->
  exists pre post,
    boards = (pre ++ found :: post)%list /\
    findBoard pre (boardId board) = None /\
    assignFoundBoard boards board = (pre ++ assignBoard found board :: post)%list.
Proof.
  induction boards as [|b boards IH]; cbn; [discriminate|].
  destruct (boardId b =? boardId board) eqn:E.
  - intros H; inversion H; subst. exists [], boards. auto.
  - intros H. destruct (IH H) as (pre & post & -> & Hpre & Hassign).
    exists (b :: pre), post. cbn. rewrite E, Hassign. auto.
Qed.

(** X18: [UPDATE_BOARD] appends a board whose id is new and otherwise
    merges the board into the first one with its id, in place: a property
    the board carries takes the board's value, every other property of the
    stored board keeps its value, and no other board changes. *)
Theorem UPDATE_BOARD_merges (boards : list Board) (board : Board) :
  NoDup (map fst (boardProps board)) ->
  (findBoard boards (boardId board) = None ->
   UPDATE_BOARD boards board = (boards ++ [board])%list) /\
  (forall found,
      findBoard boards (boardId board) = Some found ->
      exists pre post,
        boards = (pre ++ found :: post)%list /\
        UPDATE_BOARD boards board
        = (pre ++ assignBoard found board :: post)%list /\
        forall k,
          assoc k (boardProps (assignBoard found board))
          = if hasProp (boardProps board) k
            then assoc k (boardProps board)
            else assoc k (boardProps found)).
Proof.
  intros Hnd. unfold UPDATE_BOARD. split.
  - now intros ->.
  - intros found Hfound. rewrite Hfound.
    destruct (findBoard_some boards board found Hfound)
      as (pre & post & Hboards & _ & Hassign).
    exists pre, post. split; [exact Hboards|split; [exact Hassign|]].
    intros k. cbn [assignBoard boardProps]. now apply assoc_assignProps.
Qed.

Lemma UPDATE_BOARD_merges_witness :
  let stored := mkBoard "b1" [("title", JStr "Old"); ("slug", JStr "old")] in
  let answer := mkBoard "b2" [("title", JStr "New"); ("archived", JBool true)] in
  NoDup (map fst (boardProps answer)) /\
  findBoard [stored] (boardId answer) = None /\
  UPDATE_BOARD [stored] answer = [stored; answer].
Proof.
  intros stored answer.
  assert (Hnd : NoDup (map fst (boardProps answer))).
  { repeat constructor; cbn; intuition discriminate. }
  split; [exact Hnd|split; [reflexivity|]].
  exact (proj1 (UPDATE_BOARD_merges [stored] answer Hnd) eq_refl).
Defined.

(** The merge of the answer for a stored board. *)
Example UPDATE_BOARD_example :
  UPDATE_BOARD
    [mkBoard "b1" [("title", JStr "Old"); ("slug", JStr "old")]]
    (mkBoard "b1" [("title", JStr "New"); ("archived", JBool true)])
  = [mkBoard "b1" [("title", JStr "New"); ("slug", JStr "old");
                   ("archived", JBool true)]].
Proof. reflexivity. Qed.

End BoardProperties.

(** ** The generator: separators and kinds *)

Section GeneratorProperties.

Lemma emittedFields_app (pre post : list (string * jsval)) :
  emittedFields (pre ++ post) = (emittedFields pre ++ emittedFields post)%list.
Proof.
  induction pre as [|[name field] pre IH]; cbn; [reflexivity|].
  destruct (fieldType field) as [[type|]|]; cbn; now rewrite IH.
Qed.

(** The lines of a run of entries that ends the map, when the last entry
    is emitted. *)
Lemma emittedLines_separated (pre : list (string * jsval))
      (name : string) (field : jsval) (type : string) :
  fieldType field = Ok (Some type) ->
  forall idx len,
    len = (idx + S (List.length pre))%nat ->
    emittedLines len idx (pre ++ [(name, field)])
    = separated (emittedFields (pre ++ [(name, field)])).
Proof.
  intros Hlast. induction pre as [|[n f] pre IH]; intros idx len Hlen.
  - cbn in Hlen. cbn. unfold emitted; cbn. rewrite Hlast. cbn.
    unfold fieldLine.
    destruct (Z.ltb_spec (Z.of_nat idx) (Z.of_nat len - 1)); [lia|].
    now rewrite !string_app_nil_r.
  - cbn [app emittedLines emittedFields List.length].
    rewrite (IH (S idx) len) by (cbn in Hlen; lia).
    unfold emitted; cbn [fst snd].
    destruct (fieldType f) as [[t|]|]; cbn [app]; try reflexivity.
    assert (Hne : exists x rest,
               emittedFields (pre ++ [(name, field)]) = x :: rest).
    { rewrite emittedFields_app. cbn. rewrite Hlast.
      destruct (emittedFields pre) as [|x rest]; cbn; eauto. }
    destruct Hne as (x & rest & ->). cbn [separated]. f_equal.
    unfold fieldLine. cbn in Hlen.
    destruct (Z.ltb_spec (Z.of_nat idx) (Z.of_nat len - 1)); [|lia].
    reflexivity.
Qed.

(** X19: when every entry of the map can be read and the last entry is
    emitted, the field lines are separated as a list is: each has its comma
    but the last, whichever entries before the last are skipped. *)
Theorem separators_when_last_emitted
        (entity : string) (pre : list (string * jsval))
        (name : string) (field : jsval) (type : string) :
  Forall (fun entry => defined (snd entry) = true) pre ->
  fieldType field = Ok (Some type) ->
  generateLines entity (Some (pre ++ [(name, field)])%list)
  = Ok ([header entity]
          ++ separated (emittedFields (pre ++ [(name, field)]))
          ++ ["}"])%list.
Proof.
  intros Hpre Hlast.
  assert (Hdef : Forall (fun entry => defined (snd entry) = true)
                        (pre ++ [(name, field)])).
  { apply Forall_app; split; [exact Hpre|]. constructor; [|constructor].
    cbn. destruct field; try reflexivity; discriminate. }
  unfold generateLines. rewrite (forEach_defined _ _ Hdef); cbn [bind].
  rewrite (emittedLines_separated pre name field type Hlast 0)
    by (rewrite length_app; cbn; lia).
  now rewrite <- app_assoc.
Qed.

Lemma separators_when_last_emitted_witness :
  let pre := [("title", JObj [("type", JStr "string")]);
              ("labels", JObj [("type", JStr "array")]);
              ("stars", JObj [("type", JStr "number")])] in
  Forall (fun entry => defined (snd entry) = true) pre /\
  fieldType (JObj [("type", JStr "date")]) = Ok (Some "date") /\
  generateLines "Board" (Some (pre ++ [("createdAt", JObj [("type", JStr "date")])])%list)
  = Ok ["type Board {"; "  title: String,"; "  stars: Int,";
        "  createdAt: date"; "}"].
Proof.
  intros pre.
  assert (Hpre : Forall (fun entry => defined (snd entry) = true) pre)
    by (repeat constructor).
  split; [exact Hpre|split; [reflexivity|]].
  exact (separators_when_last_emitted
           "Board" pre "createdAt" (JObj [("type", JStr "date")]) "date"
           Hpre eq_refl).
Defined.

(** X20: the type names of the kinds.  For a descriptor without override
    whose [type] is the string [kind], other than ["array"]: [string] gives
    [String], [boolean] gives [Boolean], [number] gives [Int], and any other
    kind is passed on as it is, with [!] appended when the field is
    required; but for the kind [object] the field is skipped unless the
    descriptor has [properties]. *)
Theorem kind_names (props : list (string * jsval)) (kind : string) :
  truthy (assoc "graphqlType" props) = false ->
  assoc "type" props = JStr kind ->
  kind <> "" -> kind <> "array" ->
  let name :=
    if kind =? "string" then "String"
    else if kind =? "boolean" then "Boolean"
    else if kind =? "number" then "Int"
    else kind in
  let mark := if truthy (assoc "required" props) then "!" else "" in
  fieldType (JObj props)
  = Ok (if (kind =? "object") && negb (truthy (assoc "properties" props))
        then None
        else Some (name ++ mark)).
Proof.
  intros Hov Htype Hne Harr name mark.
  unfold fieldType, declaredType, skipped, decorate, getProp; cbn [bind].
  rewrite Hov, Htype. cbn [truthy].
  destruct (String.eqb_spec kind "") as [|_]; [contradiction|]. cbn [negb bind].
  subst name mark. unfold scalarName, includes, looseEqStr.
  cbn [existsb toString].
  destruct (String.eqb_spec kind "string") as [->|Hs]; cbn [orb].
  { cbn. destruct (truthy (assoc "required" props)); reflexivity. }
  destruct (String.eqb_spec kind "boolean") as [->|Hb]; cbn [orb].
  { cbn. destruct (truthy (assoc "required" props)); reflexivity. }
  destruct (String.eqb_spec kind "number") as [->|Hn].
  { cbn. destruct (truthy (assoc "required" props)); reflexivity. }
  destruct (String.eqb_spec kind "object") as [->|Ho]; cbn [andb bind].
  - destruct (truthy (assoc "properties" props)); cbn; [|reflexivity].
    destruct (truthy (assoc "required" props)); reflexivity.
  - destruct (String.eqb_spec kind "array") as [|_]; [contradiction|].
    cbn [bind toString].
    destruct (truthy (assoc "required" props));
      now rewrite ?string_app_nil_r.
Qed.

Lemma kind_names_witness :
  let props := [("type", JStr "date"); ("required", JBool true)] in
  truthy (assoc "graphqlType" props) = false /\
  assoc "type" props = JStr "date" /\
  "date" <> "" /\ "date" <> "array" /\
  fieldType (JObj props) = Ok (Some "date!").
Proof.
  intros props.
  assert (H1 : "date" <> "") by discriminate.
  assert (H2 : "date" <> "array") by discriminate.
  split; [reflexivity|split; [reflexivity|split; [exact H1|split; [exact H2|]]]].
  exact (kind_names props "date" eq_refl eq_refl H1 H2).
Defined.

End GeneratorProperties.

(** ** A move keeps the rows *)

Section MoveKeepsRows.

Lemma inserted_permutation {A : Type} (l : list A) (k : nat) (x : A) :
  Permutation (x :: l) (firstn k l ++ x :: skipn k l).
Proof.
  rewrite <- (firstn_skipn k l) at 1. apply Permutation_middle.
Qed.

(** X21: a move of the card at [fromIndex] within its list, to any target at
    all, stores as many rows as there were, with the same ids: no row is
    lost and none is doubled.  Only the position of the moved card
    changes. *)
Theorem move_keeps_rows (rows : list Entity) (i j : Z) (card : Entity) :
  (0 <= i < Z.of_nat (List.length rows))%Z ->
  nth_error rows (Z.to_nat i) = Some card ->
  exists p stored,
    changeCardPosition rows (Some i) (Some j) card
    = Ok {| cardNewPosition := Some p; cardRows := map Some stored |} /\
    List.length stored = List.length rows /\
    Permutation (map id stored) (map id rows) /\
    Permutation stored (setPosition card p :: siblingsOf rows (Some i)).
Proof.
  intros Hi Hcard.
  destruct (changeCardPosition_siblings rows (Some i) j card) as (p & _ & Hmove).
  exists p, (spliceInsert (siblingsOf rows (Some i)) j (setPosition card p)).
  split; [exact Hmove|].
  set (sib := siblingsOf rows (Some i)).
  assert (Hrows : Permutation (card :: sib) rows).
  { unfold sib, siblingsOf, spliceDelete1; cbn [fst].
    rewrite relativeStart_index by lia.
    rewrite <- (firstn_skipn (Z.to_nat i) rows) at 3.
    rewrite (skipn_nth_error rows (Z.to_nat i) card Hcard).
    apply Permutation_middle. }
  assert (Hstored : Permutation
                      (spliceInsert sib j (setPosition card p))
                      (setPosition card p :: sib)).
  { unfold spliceInsert. symmetry. apply inserted_permutation. }
  split; [|split; [|exact Hstored]].
  - rewrite (Permutation_length Hstored), <- (Permutation_length Hrows).
    reflexivity.
  - rewrite (Permutation_map id Hstored). cbn [map setPosition id].
    change (id card :: map id sib) with (map id (card :: sib)).
    now apply Permutation_map.
Qed.

Lemma move_keeps_rows_witness :
  (0 <= 0 < Z.of_nat (List.length [rowA; rowB; rowC]))%Z /\
  nth_error [rowA; rowB; rowC] (Z.to_nat 0) = Some rowA /\
  exists p stored,
    changeCardPosition [rowA; rowB; rowC] (Some 0%Z) (Some 9%Z) rowA
    = Ok {| cardNewPosition := Some p; cardRows := map Some stored |} /\
    List.length stored = List.length [rowA; rowB; rowC] /\
    Permutation (map id stored) (map id [rowA; rowB; rowC]) /\
    Permutation stored (setPosition rowA p :: siblingsOf [rowA; rowB; rowC] (Some 0%Z)).
Proof.
  assert (Hi : (0 <= 0 < Z.of_nat (List.length [rowA; rowB; rowC]))%Z)
    by (cbn; lia).
  split; [exact Hi|split; [reflexivity|]].
  exact (move_keeps_rows [rowA; rowB; rowC] 0 9 rowA Hi eq_refl).
Defined.

End MoveKeepsRows.
